(** * Client resilience layer: offline queue, sync coordinator, cache, transport

    A shallow embedding of the TypeScript sources

    - [packages/core/src/cache/offline-queue.ts]  ([OfflineQueue])
    - [packages/core/src/cache/sync-manager.ts]   ([SyncManager])
    - [packages/core/src/cache/manager.ts]        ([CacheManager])
    - [packages/core/src/types/index.ts]          ([JarvisApiClient], WebSocket part)

    Conventions of the embedding.

    - JavaScript numbers that hold millisecond timestamps and counters are
      integers ([Z]); [Date.now()] is a parameter [now] of every operation
      that reads the clock.
    - A call that may throw returns an [outcome]; [try]/[catch] is written
      out with [tryCatch].
    - An [async] method is run to completion: the event loop is single
      threaded and a model run interleaves nothing else with it.  Where the
      source starts a method without awaiting it and the interleaving matters,
      the synchronous prefix and the continuation are separate definitions.
    - Subscribers and handlers are external code.  Their invocations are
      recorded in traces, so that order and multiplicity can be stated. *)

From Stdlib Require Import ZArith Lia.
From stdpp Require Import gmap strings list.

Local Open Scope Z_scope.

(** ** Calls that may throw *)

Inductive outcome (A : Type) : Type :=
| Returned (a : A)
| Thrown (message : option string).
Arguments Returned {A} a.
Arguments Thrown {A} message.

(** [error instanceof Error ? error.message : fallback] *)
Definition errorMessage (fallback : string) (e : option string) : string :=
  match e with Some m => m | None => fallback end.

(** * Offline mutation queue *)

Module OfflineQueue.

Inductive Status : Type := Pending | Processing | Failed | Completed.

#[export] Instance Status_eq_dec : EqDecision Status.
Proof. solve_decision. Defined.

Section Queue.

Variable Payload : Type.

Record QueuedAction : Type := mkAction {
  id : string;
  type : string;
  payload : Payload;
  timestamp : Z;
  retryCount : Z;
  maxRetries : Z;
  status : Status;
  error : option string
}.

Definition setStatus (s : Status) (a : QueuedAction) : QueuedAction :=
  mkAction (id a) (type a) (payload a) (timestamp a) (retryCount a)
           (maxRetries a) s (error a).

Definition setError (e : option string) (a : QueuedAction) : QueuedAction :=
  mkAction (id a) (type a) (payload a) (timestamp a) (retryCount a)
           (maxRetries a) (status a) e.

Definition setRetryCount (n : Z) (a : QueuedAction) : QueuedAction :=
  mkAction (id a) (type a) (payload a) (timestamp a) n
           (maxRetries a) (status a) (error a).

Definition isPending (a : QueuedAction) : bool :=
  match status a with Pending => true | _ => false end.

Definition isFailed (a : QueuedAction) : bool :=
  match status a with Failed => true | _ => false end.

Definition isCompleted (a : QueuedAction) : bool :=
  match status a with Completed => true | _ => false end.

Record OfflineQueueOptions : Type := mkOptions {
  maxQueueSize : Z;
  optMaxRetries : Z;
  retryDelay : Z;
  storageKey : string
}.

(** The constructor's defaults: [options.x ?? default]. *)
Definition defaultOptions : OfflineQueueOptions :=
  mkOptions 100 3 5000 "offline-queue".

(** [ActionHandler]: the promise a handler returns either resolves or
    rejects with a thrown value. *)
Abbreviation ActionHandler := (QueuedAction -> outcome unit).

Record t : Type := mkQueue {
  options : OfflineQueueOptions;
  queue : list QueuedAction;
  handlers : gmap string ActionHandler;
  processing : bool;
  online : bool;
  syncTimer : bool  (* a retry pass is scheduled *)
}.

Definition create (o : OfflineQueueOptions) : t :=
  mkQueue o [] ∅ false true false.

Definition withQueue (l : list QueuedAction) (q : t) : t :=
  mkQueue (options q) l (handlers q) (processing q) (online q) (syncTimer q).

Definition registerHandler (ty : string) (h : ActionHandler) (q : t) : t :=
  mkQueue (options q) (queue q) (<[ty := h]> (handlers q))
          (processing q) (online q) (syncTimer q).

(** [this.queue.filter(a => a.status === 'pending')] yields references to
    the objects of [this.queue]; the loop mutates them in place.  The
    references are the positions of the pending actions. *)
Fixpoint pendingFrom (i : nat) (l : list QueuedAction) : list nat :=
  match l with
  | [] => []
  | a :: l' =>
      if isPending a then i :: pendingFrom (S i) l' else pendingFrom (S i) l'
  end.

Definition pendingActions (l : list QueuedAction) : list nat := pendingFrom 0 l.

(** The [catch] branch of the handler call. *)
Definition onReject (e : option string) (a : QueuedAction) : QueuedAction :=
  let a' := setRetryCount (retryCount a + 1) a in
  if retryCount a' >=? maxRetries a'
  then setError (Some (errorMessage "Unknown error" e)) (setStatus Failed a')
  else setStatus Pending a'.

(** One iteration of [for (const action of pendingActions)].  The second
    component is the trace of handler invocations, each with the action
    object as the handler received it. *)
Definition processAction (hs : gmap string ActionHandler)
    (st : list QueuedAction * list QueuedAction) (i : nat)
    : list QueuedAction * list QueuedAction :=
  let '(l, tr) := st in
  match l !! i with
  | None => st
  | Some action =>
      match hs !! type action with
      | None =>
          (<[i := setError (Some ("No handler for action type: " +:+ type action))
                   (setStatus Failed action)]> l, tr)
      | Some handler =>
          let action1 := setStatus Processing action in
          match handler action1 with
          | Returned _ => (<[i := setStatus Completed action1]> l, tr ++ [action1])
          | Thrown e => (<[i := onReject e action1]> l, tr ++ [action1])
          end
      end
  end.

Definition hasPending (l : list QueuedAction) : bool := existsb isPending l.

(** The body of [processQueue] after the reentrancy guard: the loop, the
    removal of completed actions, the [finally] and the retry timer. *)
Definition runPass (q : t) : t * list QueuedAction :=
  let '(l, tr) := foldl (processAction (handlers q)) (queue q, [])
                        (pendingActions (queue q)) in
  let l' := List.filter (fun a => negb (isCompleted a)) l in
  (mkQueue (options q) l' (handlers q) false (online q)
           (if hasPending l' then true else syncTimer q), tr).

Definition processQueue (q : t) : t * list QueuedAction :=
  if processing q || negb (online q) then (q, [])
  else runPass q.

(** The synchronous prefix of a [processQueue()] call that is not awaited:
    the guard and [this.processing = true].  The pass then is in flight and
    [runPass] is its completion. *)
Definition startPass (q : t) : t :=
  if processing q || negb (online q) then q
  else mkQueue (options q) (queue q) (handlers q) true (online q) (syncTimer q).

(** [enqueue]; [newId] and [now] are [generateId()] and [Date.now()]. *)
Definition enqueue (ty : string) (p : Payload) (newId : string) (now : Z)
    (q : t) : outcome (string * t * list QueuedAction) :=
  if Z.of_nat (length (queue q)) >=? maxQueueSize (options q)
  then Thrown (Some "Queue is full")
  else
    let action := mkAction newId ty p now 0 (optMaxRetries (options q)) Pending None in
    let q1 := withQueue (queue q ++ [action]) q in
    if online q1 && negb (processing q1)
    then let '(q2, tr) := processQueue q1 in Returned (newId, q2, tr)
    else Returned (newId, q1, []).

Definition setOnline (v : bool) (q : t) : t * list QueuedAction :=
  let wasOffline := negb (online q) in
  let q1 := mkQueue (options q) (queue q) (handlers q) (processing q) v (syncTimer q) in
  if v && wasOffline then processQueue q1 else (q1, []).

(** The synchronous prefix of [setOnline]. *)
Definition setOnlineStart (v : bool) (q : t) : t :=
  let wasOffline := negb (online q) in
  let q1 := mkQueue (options q) (queue q) (handlers q) (processing q) v (syncTimer q) in
  if v && wasOffline then startPass q1 else q1.

Definition getQueue (q : t) : list QueuedAction := queue q.

Definition getPendingCount (q : t) : nat := length (List.filter isPending (queue q)).

Definition getFailedCount (q : t) : nat := length (List.filter isFailed (queue q)).

Definition clearFailed (q : t) : t :=
  withQueue (List.filter (fun a => negb (isFailed a)) (queue q)) q.

Definition clearAll (q : t) : t := withQueue [] q.

Definition resetFailed (a : QueuedAction) : QueuedAction :=
  if isFailed a then setError None (setRetryCount 0 (setStatus Pending a)) else a.

Definition retryFailed (q : t) : t * list QueuedAction :=
  processQueue (withQueue (map resetFailed (queue q)) q).

(** The callback of [scheduleRetry]'s timer. *)
Definition retryTimerFires (q : t) : t * list QueuedAction :=
  let q1 := mkQueue (options q) (queue q) (handlers q) (processing q) (online q) false in
  if online q1 then processQueue q1 else (q1, []).

(** [n] successive passes, with the handler invocations of all of them. *)
Fixpoint passes (n : nat) (q : t) : t * list QueuedAction :=
  match n with
  | O => (q, [])
  | S n' =>
      let '(q1, tr1) := processQueue q in
      let '(q2, tr2) := passes n' q1 in
      (q2, tr1 ++ tr2)
  end.

(** *** The pass, action by action *)

(** What one pass does to one action of the queue. *)
Definition processOne (hs : gmap string ActionHandler) (a : QueuedAction)
    : QueuedAction :=
  if isPending a then
    match hs !! type a with
    | None => setError (Some ("No handler for action type: " +:+ type a))
                       (setStatus Failed a)
    | Some handler =>
        match handler (setStatus Processing a) with
        | Returned _ => setStatus Completed (setStatus Processing a)
        | Thrown e => onReject e (setStatus Processing a)
        end
    end
  else a.

(** The handler invocations one action contributes to a pass. *)
Definition invokedOne (hs : gmap string ActionHandler) (a : QueuedAction)
    : list QueuedAction :=
  if isPending a then
    match hs !! type a with
    | None => []
    | Some _ => [setStatus Processing a]
    end
  else [].

Definition invoked (hs : gmap string ActionHandler) (l : list QueuedAction)
    : list QueuedAction :=
  concat (map (invokedOne hs) l).

Lemma insert_middle_action (pre suf : list QueuedAction) (a x : QueuedAction) :
  <[length pre := x]> (pre ++ a :: suf) = (pre ++ [x]) ++ suf.
Proof.
  rewrite insert_app_r_alt by lia.
  rewrite Nat.sub_diag. simpl. by rewrite <- app_assoc.
Qed.

Lemma processAction_loop hs (suf : list QueuedAction) :
  forall pre tr,
    foldl (processAction hs) (pre ++ suf, tr) (pendingFrom (length pre) suf)
    = (pre ++ map (processOne hs) suf, tr ++ invoked hs suf).
Proof.
  induction suf as [|a suf IH]; intros pre tr.
  - unfold invoked. simpl. by rewrite !app_nil_r.
  - assert (Hlen : forall x : QueuedAction, S (length pre) = length (pre ++ [x]))
      by (intros x; rewrite length_app; simpl; lia).
    change (invoked hs (a :: suf)) with (invokedOne hs a ++ invoked hs suf).
    cbn [pendingFrom map].
    unfold processOne at 1, invokedOne.
    destruct (isPending a) eqn:Hp.
    + cbn [foldl]. unfold processAction at 2.
      rewrite list_lookup_middle by reflexivity.
      destruct (hs !! type a) as [h|].
      * destruct (h (setStatus Processing a)) as [u|e];
          rewrite insert_middle_action;
          erewrite Hlen; rewrite IH; by rewrite <- !app_assoc.
      * rewrite insert_middle_action.
        erewrite Hlen; rewrite IH. by rewrite <- !app_assoc.
    + replace (pre ++ a :: suf) with ((pre ++ [a]) ++ suf)
        by (by rewrite <- app_assoc).
      rewrite (Hlen a), IH. by rewrite <- !app_assoc.
Qed.

Lemma runPass_spec (q : t) :
  runPass q =
    (mkQueue (options q)
       (List.filter (fun a => negb (isCompleted a))
                    (map (processOne (handlers q)) (queue q)))
       (handlers q) false (online q)
       (if hasPending (List.filter (fun a => negb (isCompleted a))
                         (map (processOne (handlers q)) (queue q)))
        then true else syncTimer q),
     invoked (handlers q) (queue q)).
Proof.
  unfold runPass, pendingActions.
  pose proof (processAction_loop (handlers q) (queue q) [] []) as H.
  simpl in H. by rewrite H.
Qed.

(** The actions a pass delivers: pending, and of a type that has a handler. *)
Definition deliverable (hs : gmap string ActionHandler) (a : QueuedAction) : bool :=
  isPending a && bool_decide (is_Some (hs !! type a)).

Lemma invoked_filter hs (l : list QueuedAction) :
  invoked hs l = map (setStatus Processing) (List.filter (deliverable hs) l).
Proof.
  induction l as [|a l IH]; [reflexivity|].
  change (invoked hs (a :: l)) with (invokedOne hs a ++ invoked hs l).
  rewrite IH. unfold invokedOne, deliverable. simpl.
  destruct (isPending a); simpl; [|reflexivity].
  destruct (hs !! type a) as [h|] eqn:Hh.
  - rewrite bool_decide_eq_true_2 by eauto. reflexivity.
  - rewrite bool_decide_eq_false_2 by (intros [? ?]; congruence). reflexivity.
Qed.

(** *** Sequencing of calls that may throw *)

Definition andThen {A B : Type} (x : outcome A) (f : A -> outcome B) : outcome B :=
  match x with
  | Returned a => f a
  | Thrown e => Thrown e
  end.

(** Three actions are enqueued while offline, the first and the third of
    type [X] and the second of type [Y]; then the queue goes online.  The
    result is the trace of handler invocations of that transition. *)
Definition enqueueOfflineThenOnline (o : OfflineQueueOptions)
    (X Y : string) (hX hY : ActionHandler)
    (pa pb pc : Payload) (ia ib ic : string) (ta tb tc : Z)
    : outcome (list QueuedAction) :=
  let q0 := fst (setOnline false
                   (registerHandler Y hY (registerHandler X hX (create o)))) in
  andThen (enqueue X pa ia ta q0) (fun r1 =>
  andThen (enqueue Y pb ib tb (snd (fst r1))) (fun r2 =>
  andThen (enqueue X pc ic tc (snd (fst r2))) (fun r3 =>
  Returned (snd r1 ++ snd r2 ++ snd r3 ++ snd (setOnline true (snd (fst r3))))))).

(** *** Counting delivery attempts *)

Definition hasId (x : string) (a : QueuedAction) : bool := String.eqb (id a) x.

(** The number of entries of a trace (or of a queue) with identifier [x]. *)
Definition attempts (x : string) (l : list QueuedAction) : nat :=
  length (List.filter (hasId x) l).

Definition alwaysRejects (h : ActionHandler) : Prop :=
  forall a, exists e, h a = Thrown e.

Lemma attempts_app x (l1 l2 : list QueuedAction) :
  attempts x (l1 ++ l2) = (attempts x l1 + attempts x l2)%nat.
Proof. unfold attempts. by rewrite List.filter_app, length_app. Qed.

Lemma attempts_one_elem x (l : list QueuedAction) :
  attempts x l = 1%nat -> exists b, In b l /\ id b = x.
Proof.
  unfold attempts. induction l as [|a l IH]; simpl; [discriminate|].
  destruct (hasId x a) eqn:Ha.
  - intros _. exists a. split; [by left|]. by apply String.eqb_eq.
  - intros H. destruct (IH H) as (b & Hb & Hid). exists b. split; [by right|done].
Qed.

Lemma attempts_without_failed x (l : list QueuedAction) :
  Forall (fun b => id b = x -> status b = Failed) l ->
  attempts x (List.filter (fun a => negb (isFailed a)) l) = 0%nat.
Proof.
  unfold attempts. induction 1 as [|b l Hb Hl IH]; simpl; [done|].
  destruct (isFailed b) eqn:Hf; simpl; [exact IH|].
  destruct (hasId x b) eqn:Hid; simpl; [|exact IH].
  apply String.eqb_eq in Hid. unfold isFailed in Hf. by rewrite (Hb Hid) in Hf.
Qed.

Section Tracked.

Variable hs : gmap string ActionHandler.
Variable x ty : string.
Variable m : Z.
Variable h : ActionHandler.
Hypothesis Hh : hs !! ty = Some h.
Hypothesis Hrej : alwaysRejects h.

(** The state of the tracked action after [k] passes. *)
Definition afterPasses (k : Z) (b : QueuedAction) : Prop :=
  type b = ty /\ maxRetries b = m /\
  retryCount b = Z.min k (Z.max 1 m) /\
  status b = if k <? Z.max 1 m then Pending else Failed.

Lemma processOne_tracked (k : Z) (b : QueuedAction) :
  0 <= k -> afterPasses k b ->
  afterPasses (k + 1) (processOne hs b) /\
  isCompleted (processOne hs b) = false /\
  invokedOne hs b = if k <? Z.max 1 m then [setStatus Processing b] else [].
Proof.
  intros Hk (Hty & Hm & Hrc & Hst).
  unfold processOne, invokedOne, isPending. rewrite Hst.
  destruct (k <? Z.max 1 m) eqn:Hlt.
  - apply Z.ltb_lt in Hlt. rewrite Hty, Hh. cbv beta iota.
    destruct (Hrej (setStatus Processing b)) as [e ->].
    unfold onReject, afterPasses, isCompleted. simpl.
    rewrite Hm, Hrc.
    replace (Z.min k (Z.max 1 m)) with k by lia.
    destruct (k + 1 >=? m) eqn:Hge; simpl.
    + assert ((k + 1 <? Z.max 1 m) = false) as -> by lia.
      repeat split; try done. lia.
    + assert ((k + 1 <? Z.max 1 m) = true) as -> by lia.
      repeat split; try done. lia.
  - apply Z.ltb_ge in Hlt.
    unfold afterPasses, isCompleted. rewrite Hst.
    assert ((k + 1 <? Z.max 1 m) = false) as -> by lia.
    repeat split; try done. lia.
Qed.

Lemma id_processOne (b : QueuedAction) : id (processOne hs b) = id b.
Proof.
  unfold processOne. destruct (isPending b); [|done].
  destruct (hs !! type b) as [g|]; [|done].
  destruct (g (setStatus Processing b)); [done|].
  unfold onReject. simpl.
  by destruct (retryCount b + 1 >=? maxRetries b).
Qed.

Lemma attempts_invokedOne_other (b : QueuedAction) :
  hasId x b = false -> attempts x (invokedOne hs b) = 0%nat.
Proof.
  intros Hb. unfold invokedOne.
  destruct (isPending b); [|done].
  destruct (hs !! type b); [|done].
  unfold attempts. simpl. unfold hasId in *. simpl. by rewrite Hb.
Qed.

Lemma pass_tracked (k : Z) (l : list QueuedAction) :
  0 <= k ->
  Forall (fun b => id b = x -> afterPasses k b) l ->
  let l' := List.filter (fun a => negb (isCompleted a)) (map (processOne hs) l) in
  attempts x (invoked hs l) = (if k <? Z.max 1 m then attempts x l else 0%nat) /\
  attempts x l' = attempts x l /\
  Forall (fun b => id b = x -> afterPasses (k + 1) b) l'.
Proof.
  intros Hk. induction 1 as [|b l Hb Hl IH]; simpl.
  - by destruct (k <? Z.max 1 m).
  - destruct IH as (IH1 & IH2 & IH3).
    change (invoked hs (b :: l)) with (invokedOne hs b ++ invoked hs l).
    rewrite attempts_app, IH1.
    destruct (hasId x b) eqn:Hid.
    + assert (id b = x) as Hx by (by apply String.eqb_eq).
      destruct (processOne_tracked k b Hk (Hb Hx)) as (Hnext & Hnc & Hinv).
      rewrite Hnc, Hinv. simpl.
      assert (hasId x (processOne hs b) = true) as Hid'
        by (unfold hasId; by rewrite id_processOne).
      unfold attempts in *. simpl. rewrite Hid, Hid'. simpl.
      repeat split.
      * destruct (k <? Z.max 1 m); simpl; [|done].
        unfold hasId in *. simpl. by rewrite Hid.
      * by rewrite IH2.
      * constructor; [done|exact IH3].
    + rewrite attempts_invokedOne_other by done.
      assert (hasId x (processOne hs b) = false) as Hid'
        by (unfold hasId; by rewrite id_processOne).
      assert (id (processOne hs b) <> x) as Hne
        by (by apply String.eqb_neq).
      repeat split.
      * unfold attempts. simpl. rewrite Hid.
        by destruct (k <? Z.max 1 m).
      * unfold attempts in *. simpl. rewrite Hid.
        destruct (negb (isCompleted (processOne hs b))); simpl;
          [by rewrite Hid'|done].
      * destruct (negb (isCompleted (processOne hs b))); [|done].
        constructor; [done|exact IH3].
Qed.

(** The invariant carried from pass to pass. *)
Definition tracking (k : Z) (q : t) : Prop :=
  online q = true /\ processing q = false /\ handlers q = hs /\
  attempts x (queue q) = 1%nat /\
  Forall (fun b => id b = x -> afterPasses k b) (queue q).

Lemma processQueue_tracking (k : Z) (q : t) :
  0 <= k -> tracking k q ->
  tracking (k + 1) (fst (processQueue q)) /\
  attempts x (snd (processQueue q)) = if k <? Z.max 1 m then 1%nat else 0%nat.
Proof.
  intros Hk (Hon & Hpr & Hhs & Hone & Hall).
  unfold processQueue. rewrite Hon, Hpr. simpl.
  rewrite runPass_spec. simpl. rewrite Hhs.
  destruct (pass_tracked k (queue q) Hk Hall) as (H1 & H2 & H3).
  split.
  - unfold tracking. simpl. repeat split; try done. by rewrite H2.
  - rewrite H1, Hone. done.
Qed.

Lemma passes_tracking (n : nat) :
  forall (k : Z) (q : t),
    0 <= k -> tracking k q ->
    tracking (k + Z.of_nat n) (fst (passes n q)) /\
    Z.of_nat (attempts x (snd (passes n q)))
    = Z.min (k + Z.of_nat n) (Z.max k (Z.max 1 m)) - k.
Proof.
  induction n as [|n IH]; intros k q Hk Hq.
  - simpl. rewrite Z.add_0_r. split; [done|]. unfold attempts. simpl. lia.
  - cbn [passes].
    destruct (processQueue_tracking k q Hk Hq) as (Hq1 & Ha1).
    destruct (processQueue q) as [q1 tr1]. simpl in Hq1, Ha1.
    assert (0 <= k + 1) as Hk1 by lia.
    destruct (IH (k + 1) q1 Hk1 Hq1) as (Hq2 & Ha2).
    destruct (passes n q1) as [q2 tr2]. simpl in Hq2, Ha2. simpl.
    split.
    + by replace (k + Z.of_nat (S n)) with (k + 1 + Z.of_nat n) by lia.
    + rewrite attempts_app, Nat2Z.inj_add, Ha1, Ha2.
      destruct (k <? Z.max 1 m) eqn:Hlt; lia.
Qed.

End Tracked.

(** *** Queue ordering *)

(** C5. A pass of [processQueue] that gets past the reentrancy guard invokes
    the handlers of exactly the pending actions whose type has a handler, one
    after the other in queue order, whatever their types; a guarded call
    invokes none.  [enqueue] appends, so queue order is insertion order:
    actions A (type X), B (type Y), C (type X) enqueued while offline are
    delivered as A, B, C when the queue goes online. *)
Theorem processQueue_insertion_order :
  (forall q : t,
      snd (processQueue q) =
        if processing q || negb (online q) then []
        else map (setStatus Processing)
                 (List.filter (deliverable (handlers q)) (queue q))) /\
  (forall (o : OfflineQueueOptions) (X Y : string) (hX hY : ActionHandler)
          (pa pb pc : Payload) (ia ib ic : string) (ta tb tc : Z),
      3 <= maxQueueSize o ->
      enqueueOfflineThenOnline o X Y hX hY pa pb pc ia ib ic ta tb tc =
        Returned [ mkAction ia X pa ta 0 (optMaxRetries o) Processing None;
                   mkAction ib Y pb tb 0 (optMaxRetries o) Processing None;
                   mkAction ic X pc tc 0 (optMaxRetries o) Processing None ]).
Proof.
  split.
  - intros q. unfold processQueue.
    destruct (processing q || negb (online q)); [reflexivity|].
    rewrite runPass_spec. simpl. apply invoked_filter.
  - intros o X Y hX hY pa pb pc ia ib ic ta tb tc Hcap.
    assert (forall k : nat, (k < 3)%nat ->
              (Z.of_nat k >=? maxQueueSize o) = false) as Hroom
      by (intros k Hk; lia).
    unfold enqueueOfflineThenOnline, enqueue. simpl.
    rewrite (Hroom 0%nat) by lia. simpl.
    rewrite (Hroom 1%nat) by lia. simpl.
    rewrite (Hroom 2%nat) by lia. simpl. f_equal.
    unfold setOnline, processQueue. simpl.
    rewrite runPass_spec. simpl.
    unfold invoked, invokedOne. simpl.
    rewrite lookup_insert_eq.
    destruct (decide (Y = X)) as [->|Hne].
    + rewrite lookup_insert_eq. reflexivity.
    + rewrite lookup_insert_ne by done. rewrite lookup_insert_eq. reflexivity.
Qed.

(** *** Retry exhaustion *)

(** C4, as amended. An action of the queue with a unique identifier, pending
    with [retryCount = 0], whose handler rejects every invocation, has after
    [n] passes received exactly [min n (max 1 maxRetries)] delivery attempts
    (so exactly [maxRetries] of them when [maxRetries >= 1], and one when
    [maxRetries <= 0]); it is [Pending] before that bound is reached and
    [Failed] from then on, and it is still an entry of [getQueue] after every
    pass; [clearFailed] removes it once it is [Failed]. *)
Theorem retry_exhaustion (q : t) (a : QueuedAction) (h : ActionHandler) (n : nat) :
  online q = true -> processing q = false ->
  In a (queue q) -> attempts (id a) (queue q) = 1%nat ->
  status a = Pending -> retryCount a = 0 ->
  handlers q !! type a = Some h -> alwaysRejects h ->
  let bound := Z.max 1 (maxRetries a) in
  Z.of_nat (attempts (id a) (snd (passes n q))) = Z.min (Z.of_nat n) bound /\
  exists b,
    In b (getQueue (fst (passes n q))) /\ id b = id a /\
    retryCount b = Z.min (Z.of_nat n) bound /\
    status b = (if Z.of_nat n <? bound then Pending else Failed) /\
    (bound <= Z.of_nat n ->
     attempts (id a) (getQueue (clearFailed (fst (passes n q)))) = 0%nat).
Proof.
  intros Hon Hpr Hin Hone Hst Hrc Hh Hrej bound.
  assert (tracking (handlers q) (id a) (type a) (maxRetries a) 0 q) as Htr.
  { unfold tracking. repeat split; try done.
    apply Forall_forall. intros b Hb Hid.
    apply list_elem_of_In in Hb.
    assert (b = a) as ->.
    { clear -Hin Hb Hid Hone. revert Hin Hb Hone. unfold attempts.
      induction (queue q) as [|c l IH]; simpl; [done|].
      intros [->|Ha] [->|Hb]; try done.
      - unfold hasId at 1. rewrite String.eqb_refl. simpl. intros [=Hl].
        exfalso. assert (hasId (id a) b = true) as Hbid
          by (unfold hasId; rewrite Hid; apply String.eqb_refl).
        clear IH. induction l as [|d l IHl]; simpl in *; [done|].
        destruct Hb as [->|Hb]; [by rewrite Hbid in Hl|].
        destruct (hasId (id a) d); [done|]. by apply IHl.
      - unfold hasId at 1. rewrite Hid, String.eqb_refl. simpl. intros [=Hl].
        exfalso. assert (hasId (id a) a = true) as Haid
          by (unfold hasId; apply String.eqb_refl).
        clear IH. induction l as [|d l IHl]; simpl in *; [done|].
        destruct Ha as [->|Ha]; [by rewrite Haid in Hl|].
        destruct (hasId (id a) d); [done|]. by apply IHl.
      - destruct (hasId (id a) c); simpl; intros Hl; [|by apply IH].
        injection Hl as Hl. exfalso.
        assert (hasId (id a) a = true) as Haid
          by (unfold hasId; apply String.eqb_refl).
        clear IH Hb. induction l as [|d l IHl]; simpl in *; [done|].
        destruct Ha as [->|Ha]; [by rewrite Haid in Hl|].
        destruct (hasId (id a) d); [done|]. by apply IHl. }
    unfold afterPasses. repeat split; try done.
    - rewrite Hrc. lia.
    - rewrite Hst. by assert ((0 <? Z.max 1 (maxRetries a)) = true) as -> by lia. }
  destruct (passes_tracking (handlers q) (id a) (type a) (maxRetries a) h Hh Hrej
              n 0 q ltac:(lia) Htr) as ((_ & _ & _ & Hone' & Hall) & Hatt).
  rewrite Z.add_0_l in Hall.
  split.
  - rewrite Hatt. subst bound. lia.
  - destruct (attempts_one_elem _ _ Hone') as (b & Hb & Hid).
    exists b. split; [exact Hb|]. split; [exact Hid|].
    pose proof Hall as Hall'.
    rewrite Forall_forall in Hall'.
    destruct (Hall' b (proj2 (list_elem_of_In _ _) Hb) Hid) as (_ & _ & Hrcb & Hstb).
    subst bound. repeat split; try done.
    intros Hn. unfold getQueue, clearFailed. simpl.
    apply attempts_without_failed.
    eapply Forall_impl; [exact Hall|]. simpl.
    intros c Hc Hidc. destruct (Hc Hidc) as (_ & _ & _ & Hstc).
    rewrite Hstc.
    by assert ((Z.of_nat n <? Z.max 1 (maxRetries a)) = false) as -> by lia.
Qed.

(** ** Further properties of the queue *)

(** [createOptimisticUpdate]: the wrapper applies [optimisticFn], enqueues,
    and on a throw of [enqueue] calls [rollbackFn] and throws again.  The
    calls of the two callbacks are recorded. *)
Inductive UiEffect : Type :=
| OptimisticApplied (p : Payload)
| RolledBack (p : Payload) (message : string).

Definition createOptimisticUpdate (actionType : string) (p : Payload)
    (newId : string) (now : Z) (q : t)
    : list UiEffect * outcome (string * t * list QueuedAction) :=
  match enqueue actionType p newId now q with
  | Returned r => ([OptimisticApplied p], Returned r)
  | Thrown e =>
      ([OptimisticApplied p; RolledBack p (errorMessage "Unknown error" e)],
       Thrown e)
  end.

(** What a pass never changes of an action. *)
Definition essence (a : QueuedAction) : string * string * Payload * Z * Z :=
  (id a, type a, payload a, timestamp a, maxRetries a).

(** The bound the data model puts on a pending action. *)
Definition retryable (a : QueuedAction) : Prop :=
  status a = Pending -> retryCount a < maxRetries a.

Lemma essence_processOne hs (a : QueuedAction) :
  essence (processOne hs a) = essence a.
Proof.
  unfold processOne. destruct (isPending a); [|done].
  destruct (hs !! type a) as [g|]; [|done].
  destruct (g (setStatus Processing a)); [done|].
  unfold onReject. simpl.
  by destruct (retryCount a + 1 >=? maxRetries a).
Qed.

Lemma passed_list_sublist hs (l : list QueuedAction) :
  map essence (List.filter (fun a => negb (isCompleted a)) (map (processOne hs) l))
    `sublist_of` map essence l.
Proof.
  induction l as [|a l IH]; simpl; [constructor|].
  destruct (negb (isCompleted (processOne hs a))); simpl.
  - rewrite essence_processOne. by constructor.
  - by constructor.
Qed.

Lemma In_passed_list hs (l : list QueuedAction) (a : QueuedAction) :
  In a l -> isCompleted (processOne hs a) = false ->
  In (processOne hs a)
     (List.filter (fun a => negb (isCompleted a)) (map (processOne hs) l)).
Proof.
  intros Hin Hnc. apply filter_In. split.
  - by apply in_map.
  - by rewrite Hnc.
Qed.

Lemma processQueue_runs (q : t) :
  online q = true -> processing q = false -> processQueue q = runPass q.
Proof. intros Hon Hpr. unfold processQueue. by rewrite Hon, Hpr. Qed.

(** A successful [enqueue] returns the generated identifier and leaves at
    most [maxQueueSize] actions in the queue, whether or not it ran a pass;
    [enqueue] throws "Queue is full", and only that, exactly when the queue
    already holds [maxQueueSize] actions or more. *)
Theorem enqueue_respects_capacity (ty : string) (p : Payload) (newId : string)
    (now : Z) (q : t) :
  match enqueue ty p newId now q with
  | Returned (i, q', _) =>
      i = newId /\
      Z.of_nat (length (getQueue q)) < maxQueueSize (options q) /\
      Z.of_nat (length (getQueue q')) <= maxQueueSize (options q) /\
      options q' = options q
  | Thrown e =>
      e = Some "Queue is full" /\
      maxQueueSize (options q) <= Z.of_nat (length (getQueue q))
  end.
Proof.
  unfold enqueue, getQueue.
  destruct (Z.of_nat (length (queue q)) >=? maxQueueSize (options q)) eqn:Hfull.
  - split; [done|lia].
  - simpl. unfold processQueue. simpl.
    destruct (online q && negb (processing q)) eqn:Hgo.
    + apply andb_true_iff in Hgo as [Hon Hpr]. apply negb_true_iff in Hpr.
      rewrite Hon, Hpr. simpl. rewrite runPass_spec. simpl.
      repeat split; try lia.
      match goal with
      | |- context [length (List.filter ?f ?l)] =>
          pose proof (filter_length_le f l) as Hle
      end.
      rewrite length_map, length_app in Hle. simpl in Hle. lia.
    + simpl. repeat split; try lia.
      rewrite length_app. simpl. lia.
Qed.

(** A pass never adds, reorders or rewrites actions: the identifiers, types,
    payloads, timestamps and retry limits of the queue after a
    [processQueue] call are a subsequence of those before it. *)
Theorem processQueue_keeps_order (q : t) :
  map essence (getQueue (fst (processQueue q))) `sublist_of` map essence (getQueue q).
Proof.
  unfold processQueue, getQueue.
  destruct (processing q || negb (online q)); [done|].
  rewrite runPass_spec. simpl. apply passed_list_sublist.
Qed.

(** After a pass that gets past the guard no action of the queue is
    [Completed], and every action that was [Failed] or [Processing] before
    the pass is still in the queue, unchanged: a pass retries neither. *)
Theorem processQueue_purges_completed (q : t) :
  online q = true -> processing q = false ->
  Forall (fun a => status a <> Completed) (getQueue (fst (processQueue q))) /\
  (forall a, In a (getQueue q) -> status a = Failed \/ status a = Processing ->
             In a (getQueue (fst (processQueue q)))).
Proof.
  intros Hon Hpr. rewrite processQueue_runs by done.
  rewrite runPass_spec. unfold getQueue. simpl. split.
  - apply Forall_forall. intros a Ha. apply list_elem_of_In, filter_In in Ha as [_ Ha].
    unfold isCompleted in Ha. by destruct (status a).
  - intros a Hin Hst.
    assert (processOne (handlers q) a = a) as Hsame.
    { unfold processOne, isPending. by destruct Hst as [-> | ->]. }
    rewrite <- Hsame at 1. apply In_passed_list; [done|].
    rewrite Hsame. unfold isCompleted. by destruct Hst as [-> | ->].
Qed.

(** A pending action whose type has no registered handler is [Failed] after
    the pass, with the error "No handler for action type: <type>" and its
    [retryCount] untouched, and the pass invokes no handler on an action of
    that type. *)
Theorem processQueue_without_handler (q : t) (a : QueuedAction) :
  online q = true -> processing q = false ->
  In a (getQueue q) -> status a = Pending -> handlers q !! type a = None ->
  In (mkAction (id a) (type a) (payload a) (timestamp a) (retryCount a)
               (maxRetries a) Failed
               (Some ("No handler for action type: " +:+ type a)))
     (getQueue (fst (processQueue q))) /\
  Forall (fun b => type b <> type a) (snd (processQueue q)).
Proof.
  intros Hon Hpr Hin Hst Hnone. rewrite processQueue_runs by done.
  rewrite runPass_spec. unfold getQueue. simpl. split.
  - assert (processOne (handlers q) a
            = mkAction (id a) (type a) (payload a) (timestamp a) (retryCount a)
                (maxRetries a) Failed
                (Some ("No handler for action type: " +:+ type a))) as Hone.
    { unfold processOne, isPending. by rewrite Hst, Hnone. }
    rewrite <- Hone. apply In_passed_list; [done|]. by rewrite Hone.
  - rewrite invoked_filter. apply Forall_forall. intros b Hb.
    apply list_elem_of_In, in_map_iff in Hb as (c & <- & Hc).
    apply filter_In in Hc as [_ Hc]. unfold deliverable in Hc.
    apply andb_true_iff in Hc as [_ Hc]. apply bool_decide_eq_true in Hc.
    simpl. intros Heq. rewrite Heq, Hnone in Hc. by destruct Hc.
Qed.

Lemma attempts_completed_gone hs x (a : QueuedAction) (l : list QueuedAction) :
  Forall (fun b => id b = x -> b = a) l ->
  isCompleted (processOne hs a) = true ->
  attempts x (List.filter (fun a => negb (isCompleted a)) (map (processOne hs) l))
  = 0%nat.
Proof.
  intros Hall Hdone. unfold attempts.
  induction Hall as [|b l Hb Hl IH]; simpl; [done|].
  destruct (negb (isCompleted (processOne hs b))) eqn:Hnc; simpl; [|exact IH].
  destruct (hasId x (processOne hs b)) eqn:Hid; simpl; [|exact IH].
  exfalso. unfold hasId in Hid. apply String.eqb_eq in Hid.
  assert (id b = x) as Hx.
  { pose proof (essence_processOne hs b) as He. unfold essence in He.
    congruence. }
  rewrite (Hb Hx), Hdone in Hnc. done.
Qed.

Lemma unique_id (x : string) (a : QueuedAction) (l : list QueuedAction) :
  In a l -> id a = x -> attempts x l = 1%nat ->
  Forall (fun b => id b = x -> b = a) l.
Proof.
  unfold attempts. induction l as [|c l IH]; simpl; [done|].
  intros Hin Hid Hone.
  assert (forall l' : list QueuedAction,
             length (List.filter (hasId x) l') = 0%nat ->
             Forall (fun b => id b = x -> b = a) l') as Hnone.
  { clear. induction l' as [|d l' IH']; simpl; [constructor|].
    destruct (hasId x d) eqn:Hd; simpl; [done|]. intros H0.
    constructor; [|by apply IH'].
    intros Hx. unfold hasId in Hd. apply String.eqb_neq in Hd. done. }
  destruct (hasId x c) eqn:Hc; simpl in Hone.
  - injection Hone as Hone. constructor; [|by apply Hnone].
    intros _. destruct Hin as [->|Hin]; [done|]. exfalso.
    clear IH Hnone. induction l as [|d l IHl]; simpl in *; [done|].
    destruct Hin as [->|Hin].
    + unfold hasId in Hone. by rewrite Hid, String.eqb_refl in Hone.
    + destruct (hasId x d); [done|]. by apply IHl.
  - destruct Hin as [->|Hin].
    + unfold hasId in Hc. by rewrite Hid, String.eqb_refl in Hc.
    + constructor; [|by apply IH].
      intros Hx. unfold hasId in Hc. apply String.eqb_neq in Hc. done.
Qed.

(** A pending action whose handler resolves is handed to the handler with
    status [Processing] and, its identifier being unique, is gone from the
    queue after the pass. *)
Theorem processQueue_delivers (q : t) (a : QueuedAction) (h : ActionHandler)
    (u : unit) :
  online q = true -> processing q = false ->
  In a (getQueue q) -> attempts (id a) (getQueue q) = 1%nat ->
  status a = Pending -> handlers q !! type a = Some h ->
  h (setStatus Processing a) = Returned u ->
  In (setStatus Processing a) (snd (processQueue q)) /\
  attempts (id a) (getQueue (fst (processQueue q))) = 0%nat.
Proof.
  intros Hon Hpr Hin Hone Hst Hh Hok. rewrite processQueue_runs by done.
  rewrite runPass_spec. unfold getQueue in *. simpl. split.
  - rewrite invoked_filter. apply in_map. apply filter_In. split; [done|].
    unfold deliverable, isPending. by rewrite Hst, Hh.
  - apply (attempts_completed_gone _ _ a).
    + by apply unique_id.
    + unfold processOne, isPending. by rewrite Hst, Hh, Hok.
Qed.

Lemma retryable_processOne hs (a : QueuedAction) :
  retryable a -> retryable (processOne hs a).
Proof.
  unfold retryable, processOne, isPending. intros Ha.
  destruct (status a) eqn:Hst; try (intros; congruence).
  destruct (hs !! type a) as [g|]; [|done].
  destruct (g (setStatus Processing a)); [done|].
  unfold onReject. simpl.
  destruct (retryCount a + 1 >=? maxRetries a) eqn:Hge; simpl; [done|].
  intros _. lia.
Qed.

(** The retry bound is an invariant of [processQueue]: if every pending
    action has [retryCount < maxRetries] before a call, so has every pending
    action after it. *)
Theorem processQueue_keeps_retry_bound (q : t) :
  Forall retryable (getQueue q) ->
  Forall retryable (getQueue (fst (processQueue q))).
Proof.
  intros Hall. unfold processQueue, getQueue in *.
  destruct (processing q || negb (online q)); [done|].
  rewrite runPass_spec. simpl.
  apply Forall_forall. intros a Ha.
  apply list_elem_of_In, filter_In in Ha as [Ha _].
  apply in_map_iff in Ha as (b & <- & Hb).
  apply retryable_processOne.
  rewrite Forall_forall in Hall. apply Hall. by apply list_elem_of_In.
Qed.

Lemma count_filter_filter (f g : QueuedAction -> bool) (l : list QueuedAction) :
  (forall a, f a = true -> g a = true) ->
  List.filter f (List.filter g l) = List.filter f l.
Proof.
  intros Hfg. induction l as [|a l IH]; simpl; [done|].
  destruct (g a) eqn:Hg; simpl.
  - by rewrite IH.
  - destruct (f a) eqn:Hf; [|done]. apply Hfg in Hf. congruence.
Qed.

(** [clearFailed] removes the failed actions and nothing else: afterwards
    no action is [Failed], the pending count is what it was, and the queue
    holds exactly the actions that were not [Failed]. *)
Theorem clearFailed_removes_failed_only (q : t) :
  getFailedCount (clearFailed q) = 0%nat /\
  getPendingCount (clearFailed q) = getPendingCount q /\
  (forall a, In a (getQueue (clearFailed q)) <->
             In a (getQueue q) /\ status a <> Failed).
Proof.
  unfold getFailedCount, getPendingCount, clearFailed, getQueue. simpl.
  repeat split.
  - induction (queue q) as [|a l IH]; simpl; [done|].
    destruct (isFailed a) eqn:Hf; simpl; [done|]. by rewrite Hf.
  - f_equal. apply count_filter_filter.
    intros a. unfold isPending, isFailed. by destruct (status a).
  - by apply filter_In in H as [H _].
  - apply filter_In in H as [_ H]. unfold isFailed in H. by destruct (status a).
  - intros [Hin Hst]. apply filter_In. split; [done|].
    unfold isFailed. by destruct (status a).
Qed.

Lemma counts_resetFailed (l : list QueuedAction) :
  length (List.filter isFailed (map resetFailed l)) = 0%nat /\
  length (List.filter isPending (map resetFailed l))
  = (length (List.filter isPending l) + length (List.filter isFailed l))%nat.
Proof.
  assert (forall a, isFailed (resetFailed a) = false) as Hf
    by (intros a; unfold resetFailed, isFailed; by destruct (status a) eqn:E;
        simpl; rewrite ?E).
  assert (forall a, isPending (resetFailed a) = isPending a || isFailed a) as Hp
    by (intros a; unfold resetFailed, isFailed, isPending;
        by destruct (status a) eqn:E; simpl; rewrite ?E).
  assert (forall a, isPending a && isFailed a = false) as Hx
    by (intros a; unfold isFailed, isPending; by destruct (status a)).
  induction l as [|a l [IH1 IH2]]; simpl; [done|].
  rewrite Hf, Hp. specialize (Hx a).
  destruct (isPending a), (isFailed a); simpl in *; try done; split; try done; lia.
Qed.

(** [retryFailed] while the queue is offline invokes no handler and turns
    every failed action into a pending one with [retryCount = 0] and no
    error: no action is [Failed] afterwards and the pending count grows by
    the former failed count. *)
Theorem retryFailed_offline (q : t) :
  online q = false ->
  snd (retryFailed q) = [] /\
  getFailedCount (fst (retryFailed q)) = 0%nat /\
  getPendingCount (fst (retryFailed q))
  = (getPendingCount q + getFailedCount q)%nat /\
  (forall a, In a (getQueue q) -> status a = Failed ->
     In (mkAction (id a) (type a) (payload a) (timestamp a) 0 (maxRetries a)
                  Pending None)
        (getQueue (fst (retryFailed q)))).
Proof.
  intros Hoff. unfold retryFailed, processQueue. simpl. rewrite Hoff.
  rewrite orb_true_r. simpl.
  unfold getFailedCount, getPendingCount, getQueue. simpl.
  destruct (counts_resetFailed (queue q)) as [H1 H2].
  repeat split; try done.
  intros a Hin Hst.
  assert (resetFailed a
          = mkAction (id a) (type a) (payload a) (timestamp a) 0 (maxRetries a)
              Pending None) as <-.
  { unfold resetFailed, isFailed. by rewrite Hst. }
  by apply in_map.
Qed.

(** The optimistic wrapper applies the optimistic update first in every
    case; it rolls back, with the message "Queue is full", and throws exactly
    when the queue is full, and otherwise returns the identifier of the
    enqueued action without rolling back. *)
Theorem createOptimisticUpdate_rolls_back_when_full (ty : string) (p : Payload)
    (newId : string) (now : Z) (q : t) :
  match createOptimisticUpdate ty p newId now q with
  | (ui, Returned (i, _, _)) =>
      ui = [OptimisticApplied p] /\ i = newId /\
      Z.of_nat (length (getQueue q)) < maxQueueSize (options q)
  | (ui, Thrown e) =>
      ui = [OptimisticApplied p; RolledBack p "Queue is full"] /\
      e = Some "Queue is full" /\
      maxQueueSize (options q) <= Z.of_nat (length (getQueue q))
  end.
Proof.
  unfold createOptimisticUpdate, enqueue, getQueue.
  destruct (Z.of_nat (length (queue q)) >=? maxQueueSize (options q)) eqn:Hfull.
  - simpl. repeat split. lia.
  - destruct (online _ && negb (processing _)).
    + destruct (processQueue _) as [q2 tr]. repeat split. lia.
    + repeat split. lia.
Qed.

End Queue.

Arguments mkAction {Payload}.
Arguments mkQueue {Payload}.
Arguments create {Payload}.
Arguments registerHandler {Payload}.
Arguments enqueue {Payload}.
Arguments setOnline {Payload}.
Arguments processQueue {Payload}.
Arguments passes {Payload}.
Arguments getQueue {Payload}.
Arguments clearFailed {Payload}.
Arguments retryFailed {Payload}.
Arguments attempts {Payload}.
Arguments startPass {Payload}.
Arguments setOnlineStart {Payload}.
Arguments runPass {Payload}.
Arguments getPendingCount {Payload}.
Arguments getFailedCount {Payload}.
Arguments status {Payload}.
Arguments maxRetries {Payload}.
Arguments retryCount {Payload}.
Arguments id {Payload}.

(** *** Concrete queues *)

(** A handler whose promise always rejects. *)
Definition networkDown : QueuedAction string -> outcome unit :=
  fun _ => Thrown (Some "network down").

Definition delivered : QueuedAction string -> outcome unit :=
  fun _ => Returned tt.

(** One pending message in an online queue configured with [maxRetries = 3]:
    the state in which [setOnline(true)] calls [processQueue()] after the
    message was enqueued offline. *)
Definition oneMessage : t string :=
  mkQueue defaultOptions
    [mkAction "a1" "chat" "hello" 1000 0 3 Pending None]
    {["chat" := networkDown]} false true false.

Example oneMessage_reached :
  andThen
    (enqueue "chat" "hello" "a1" 1000
       (fst (setOnline false
               (registerHandler "chat" networkDown (create defaultOptions)))))
    (fun r => Returned (setOnline true (snd (fst r))))
  = Returned (processQueue oneMessage).
Proof. reflexivity. Qed.

(** A queue configured with [maxRetries = 0]: one message is enqueued while
    offline, then the queue goes online. *)
Definition noRetries : outcome (t string * list (QueuedAction string)) :=
  andThen
    (enqueue "chat" "hello" "a1" 1000
       (fst (setOnline false
               (registerHandler "chat" networkDown
                  (create (mkOptions 100 0 5000 "offline-queue"))))))
    (fun r => Returned (setOnline true (snd (fst r)))).

Lemma processQueue_insertion_order_witness :
  3 <= maxQueueSize defaultOptions /\
  enqueueOfflineThenOnline string defaultOptions "chat" "task" delivered networkDown
    "hello" "buy milk" "bye" "a1" "a2" "a3" 1000 1001 1002 =
  Returned [ mkAction "a1" "chat" "hello" 1000 0 3 Processing None;
             mkAction "a2" "task" "buy milk" 1001 0 3 Processing None;
             mkAction "a3" "chat" "bye" 1002 0 3 Processing None ].
Proof.
  split; [by vm_compute|].
  apply (proj2 (processQueue_insertion_order string)). by vm_compute.
Defined.

Lemma retry_exhaustion_witness :
  Z.of_nat (attempts "a1" (snd (passes 5 oneMessage))) = 3 /\
  exists b,
    In b (getQueue (fst (passes 5 oneMessage))) /\ id b = "a1" /\
    retryCount b = 3 /\ status b = Failed /\
    (3 <= 5 -> attempts "a1" (getQueue (clearFailed (fst (passes 5 oneMessage)))) = 0%nat).
Proof.
  apply (retry_exhaustion string oneMessage
           (mkAction "a1" "chat" "hello" 1000 0 3 Pending None) networkDown 5).
  - reflexivity.
  - reflexivity.
  - left. reflexivity.
  - reflexivity.
  - reflexivity.
  - reflexivity.
  - reflexivity.
  - intros a. exists (Some "network down"). reflexivity.
Defined.

(** C4, counterexample. With [maxRetries = 0] the action is [Failed] after
    the first pass, which made one delivery attempt, not [maxRetries] of
    them. *)
Lemma retry_exhaustion_no_retries :
  match noRetries with
  | Returned (q, tr) =>
      map status (getQueue q) = [Failed] /\
      map maxRetries (getQueue q) = [0] /\
      Z.of_nat (attempts "a1" tr) = 1 /\
      ~ (forall a, In a (getQueue q) -> status a = Failed ->
                   Z.of_nat (attempts (id a) tr) = maxRetries a)
  | Thrown _ => False
  end.
Proof.
  vm_compute. repeat split. intros H.
  specialize (H _ (or_introl eq_refl) eq_refl). discriminate H.
Qed.

(** *** Concrete queues for the further properties *)

Arguments essence {Payload}.
Arguments retryable {Payload}.
Arguments setStatus {Payload}.
Arguments type {Payload}.

Definition sentOk : QueuedAction string := mkAction "m1" "chat" "hello" 1000 0 3 Pending None.
Definition gaveUp : QueuedAction string :=
  mkAction "m2" "chat" "old" 900 3 3 Failed (Some "network down").
Definition orphan : QueuedAction string := mkAction "m3" "task" "buy milk" 1001 0 3 Pending None.
Definition stuck : QueuedAction string := mkAction "m4" "chat" "half sent" 800 1 3 Processing None.

(** An online queue with a handler for ["chat"] only. *)
Definition mixedQueue : t string :=
  mkQueue defaultOptions [sentOk; gaveUp; orphan; stuck]
          {["chat" := delivered]} false true false.

Definition offlineQueue : t string :=
  mkQueue defaultOptions [sentOk; gaveUp; orphan; stuck]
          {["chat" := delivered]} false false false.

Lemma processQueue_purges_completed_witness :
  Forall (fun a => status a <> Completed) (getQueue (fst (processQueue mixedQueue))) /\
  (forall a, In a (getQueue mixedQueue) -> status a = Failed \/ status a = Processing ->
             In a (getQueue (fst (processQueue mixedQueue)))).
Proof.
  apply (processQueue_purges_completed string mixedQueue); reflexivity.
Defined.

Lemma processQueue_without_handler_witness :
  In (mkAction "m3" "task" "buy milk" 1001 0 3 Failed
               (Some "No handler for action type: task"))
     (getQueue (fst (processQueue mixedQueue))) /\
  Forall (fun b => type b <> "task") (snd (processQueue mixedQueue)).
Proof.
  apply (processQueue_without_handler string mixedQueue orphan);
    try reflexivity.
  simpl. tauto.
Defined.

Lemma processQueue_delivers_witness :
  In (setStatus Processing sentOk) (snd (processQueue mixedQueue)) /\
  attempts "m1" (getQueue (fst (processQueue mixedQueue))) = 0%nat.
Proof.
  apply (processQueue_delivers string mixedQueue sentOk delivered tt);
    try reflexivity.
  simpl. tauto.
Defined.

Lemma processQueue_keeps_retry_bound_witness :
  Forall retryable (getQueue (fst (processQueue mixedQueue))).
Proof.
  apply (processQueue_keeps_retry_bound string mixedQueue).
  unfold mixedQueue, getQueue, retryable. simpl.
  repeat constructor; simpl; intros; (lia || discriminate).
Defined.

Lemma retryFailed_offline_witness :
  snd (retryFailed offlineQueue) = [] /\
  getFailedCount (fst (retryFailed offlineQueue)) = 0%nat /\
  getPendingCount (fst (retryFailed offlineQueue))
  = (getPendingCount offlineQueue + getFailedCount offlineQueue)%nat /\
  (forall a, In a (getQueue offlineQueue) -> status a = Failed ->
     In (mkAction (id a) (type a) (OfflineQueue.payload _ a)
                  (OfflineQueue.timestamp _ a) 0 (maxRetries a) Pending None)
        (getQueue (fst (retryFailed offlineQueue)))).
Proof.
  apply (retryFailed_offline string offlineQueue). reflexivity.
Defined.

End OfflineQueue.

(** * Sync coordinator *)

Module SyncManager.

Inductive Strategy : Type :=
| StrategyLocal | StrategyRemote | StrategyMerge | StrategyManual.

Inductive SyncEventType : Type :=
| Online | Offline | SyncStarted | SyncCompleted | SyncFailed
| ConflictDetected | EntitySynced.

#[export] Instance SyncEventType_eq_dec : EqDecision SyncEventType.
Proof. solve_decision. Defined.

Record SyncStatus : Type := mkStatus {
  isOnline : bool;
  isSyncing : bool;
  lastSyncAt : option Z;
  pendingCount : nat;
  failedCount : nat;
  syncErrors : list string
}.

Section Entities.

(** [Fields] stands for the members an entity type [T] has beyond those of
    [SyncableEntity]; [Payload] is the payload type of the queue. *)
Variable Fields : Type.
Variable Payload : Type.

Record SyncableEntity : Type := mkEntity {
  id : string;
  updatedAt : Z;
  syncedAt : option Z;
  isLocal : option bool;
  fields : Fields
}.

Record ConflictResolution : Type := mkResolution {
  strategy : Strategy;
  resolver : option (SyncableEntity -> SyncableEntity -> SyncableEntity)
}.

Inductive EventData : Type :=
| NoData
| ErrorData (error : string)
| ConflictData (entityType entityId : string) (local remote : SyncableEntity)
| SyncedData (entityType entityId : string).

Record SyncEvent : Type := mkEvent {
  type : SyncEventType;
  timestamp : Z;
  data : EventData
}.

Record t : Type := mkManager {
  status : SyncStatus;
  conflictStrategies : gmap string ConflictResolution;
  queue : OfflineQueue.t Payload;
  savedStatus : option (option Z)  (* the 'sync-status' record of the store *)
}.

Definition create (q : OfflineQueue.t Payload) : t :=
  mkManager (mkStatus true false None 0 0 []) ∅ q None.

Definition withStatus (s : SyncStatus) (m : t) : t :=
  mkManager s (conflictStrategies m) (queue m) (savedStatus m).

Definition setConflictStrategy (entityType : string) (r : ConflictResolution)
    (m : t) : t :=
  mkManager (status m) (<[entityType := r]> (conflictStrategies m))
            (queue m) (savedStatus m).

(** [{ ...local, isLocal: true }] *)
Definition markLocal (e : SyncableEntity) : SyncableEntity :=
  mkEntity (id e) (updatedAt e) (syncedAt e) (Some true) (fields e).

(** [{ ...saved, syncedAt: Date.now(), isLocal: false }] *)
Definition markSynced (now : Z) (e : SyncableEntity) : SyncableEntity :=
  mkEntity (id e) (updatedAt e) (Some now) (Some false) (fields e).

(** [local.syncedAt || 0] *)
Definition syncedAtOr0 (e : SyncableEntity) : Z := default 0 (syncedAt e).

Definition resolveConflict (local remote : SyncableEntity)
    (s : option ConflictResolution) : SyncableEntity :=
  match s with
  | None => if updatedAt local >? updatedAt remote then local else remote
  | Some r =>
      match strategy r with
      | StrategyLocal => local
      | StrategyRemote => remote
      | StrategyMerge =>
          match resolver r with
          | Some f => f local remote
          | None => local
          end
      | StrategyManual => markLocal local
      end
  end.

(** *** Effects of [syncEntity]

    [syncEntity] emits events and calls the two functions of its caller.
    A computation yields the effects it performed, in order, and either a
    value or a thrown error. *)

Inductive Effect : Type :=
| Emitted (e : SyncEvent)
| FetchRemoteCalled
| SaveRemoteCalled (entity : SyncableEntity).

Definition M (A : Type) : Type := list Effect * outcome A.

Definition ret {A : Type} (a : A) : M A := ([], Returned a).

Definition bind {A B : Type} (m : M A) (f : A -> M B) : M B :=
  match m with
  | (w, Returned a) => let '(w', r) := f a in (w ++ w', r)
  | (w, Thrown e) => (w, Thrown e)
  end.

Definition tryCatch {A : Type} (m : M A) (handler : option string -> M A) : M A :=
  match m with
  | (w, Returned a) => (w, Returned a)
  | (w, Thrown e) => let '(w', r) := handler e in (w ++ w', r)
  end.

Definition emit (e : SyncEvent) : M unit := ([Emitted e], Returned tt).

Definition awaitFetchRemote (fetchRemote : outcome (option SyncableEntity))
    : M (option SyncableEntity) :=
  ([FetchRemoteCalled], fetchRemote).

Definition awaitSaveRemote (saveRemote : SyncableEntity -> outcome SyncableEntity)
    (e : SyncableEntity) : M SyncableEntity :=
  ([SaveRemoteCalled e], saveRemote e).

#[local] Instance M_bind : MBind M := fun A B f m => bind m f.

Definition syncEntity (m : t) (entityType : string) (local : SyncableEntity)
    (fetchRemote : outcome (option SyncableEntity))
    (saveRemote : SyncableEntity -> outcome SyncableEntity)
    (now : Z) : M SyncableEntity :=
  if negb (isOnline (status m)) then ret (markLocal local)
  else
    tryCatch
      (found ← awaitFetchRemote fetchRemote;
       match found with
       | None =>
           saved ← awaitSaveRemote saveRemote local;
           emit (mkEvent EntitySynced now (SyncedData entityType (id local)));;
           ret (markSynced now saved)
       | Some remote =>
           if (updatedAt remote >? syncedAtOr0 local)
              && (updatedAt local >? syncedAtOr0 local)
           then
             emit (mkEvent ConflictDetected now
                     (ConflictData entityType (id local) local remote));;
             let resolved :=
               resolveConflict local remote (conflictStrategies m !! entityType) in
             saved ← awaitSaveRemote saveRemote resolved;
             ret (markSynced now saved)
           else if updatedAt local >? updatedAt remote
           then
             saved ← awaitSaveRemote saveRemote local;
             emit (mkEvent EntitySynced now (SyncedData entityType (id local)));;
             ret (markSynced now saved)
           else ret (markSynced now remote)
       end)
      (fun _ => ret (markLocal local)).

(** The arguments [saveRemote] was called with. *)
Fixpoint saveRemoteCalls (w : list Effect) : list SyncableEntity :=
  match w with
  | [] => []
  | SaveRemoteCalled e :: w' => e :: saveRemoteCalls w'
  | _ :: w' => saveRemoteCalls w'
  end.

Definition isSaveRemoteCall (x : Effect) : bool :=
  match x with SaveRemoteCalled _ => true | _ => false end.

(** *** [sync] and [setOnline] *)

Definition updateCounts (m : t) : t :=
  let s := status m in
  withStatus (mkStatus (isOnline s) (isSyncing s) (lastSyncAt s)
                (OfflineQueue.getPendingCount (queue m))
                (OfflineQueue.getFailedCount (queue m))
                (syncErrors s)) m.

(** [sync()].  [storeWrite] is the outcome of [storage.set] in
    [saveStatus], the one call of the [try] block that can throw. *)
Definition sync (storeWrite : outcome unit) (now : Z) (m : t)
    : t * list SyncEvent :=
  let s := status m in
  if isSyncing s || negb (isOnline s) then (m, [])
  else
    let started := mkEvent SyncStarted now NoData in
    let q1 := fst (OfflineQueue.processQueue (queue m)) in
    match storeWrite with
    | Returned _ =>
        (updateCounts
           (mkManager (mkStatus (isOnline s) false (Some now)
                         (pendingCount s) (failedCount s) [])
                      (conflictStrategies m) q1 (Some (Some now))),
         [started; mkEvent SyncCompleted now NoData])
    | Thrown e =>
        let msg := errorMessage "Sync failed" e in
        (updateCounts
           (mkManager (mkStatus (isOnline s) false (Some now)
                         (pendingCount s) (failedCount s) [msg])
                      (conflictStrategies m) q1 (savedStatus m)),
         [started; mkEvent SyncFailed now (ErrorData msg)])
    end.

(** [setOnline(online)].  The queue's own pass, which [queue.setOnline]
    starts without awaiting it, is in flight when [sync()] runs. *)
Definition setOnline (online : bool) (storeWrite : outcome unit) (now : Z)
    (m : t) : t * list SyncEvent :=
  let s := status m in
  let wasOffline := negb (isOnline s) in
  let m1 :=
    mkManager (mkStatus online (isSyncing s) (lastSyncAt s)
                 (pendingCount s) (failedCount s) (syncErrors s))
              (conflictStrategies m)
              (OfflineQueue.setOnlineStart online (queue m))
              (savedStatus m) in
  if online then
    let ev := mkEvent Online now NoData in
    if wasOffline
    then let '(m2, evs) := sync storeWrite now m1 in (m2, ev :: evs)
    else (m1, [ev])
  else (m1, [mkEvent Offline now NoData]).

Definition getStatus (m : t) : SyncStatus := status (updateCounts m).

(** The connectivity events among the emitted ones. *)
Definition isConnectivity (ty : SyncEventType) : bool :=
  match ty with Online | Offline => true | _ => false end.

Definition connectivityEvents (evs : list SyncEvent) : list SyncEventType :=
  List.filter isConnectivity (map type evs).

Lemma sync_connectivityEvents storeWrite now m :
  connectivityEvents (snd (sync storeWrite now m)) = [].
Proof.
  unfold sync.
  destruct (isSyncing (status m) || negb (isOnline (status m))); [reflexivity|].
  by destruct storeWrite.
Qed.

(** *** Connectivity events *)

(** C7, as amended. Every call [setOnline(true)] emits exactly one
    ['online'] event and no ['offline'] event, and every call
    [setOnline(false)] exactly one ['offline'] event and no ['online'] event,
    whatever connectivity value the coordinator held before the call. *)
Theorem setOnline_connectivity_events (online : bool) (storeWrite : outcome unit)
    (now : Z) (m : t) :
  connectivityEvents (snd (setOnline online storeWrite now m))
  = [if online then Online else Offline].
Proof.
  unfold setOnline. destruct online; [|reflexivity].
  destruct (negb (isOnline (status m))); [|reflexivity].
  match goal with
  | |- context [sync ?w ?n ?x] =>
      pose proof (sync_connectivityEvents w n x) as H;
      destruct (sync w n x) as [m2 evs]
  end.
  simpl in *. unfold connectivityEvents in *. simpl. by rewrite H.
Qed.

(** *** Errors of the remote calls *)


(** *** Default conflict policy *)


(** *** The manual strategy

    Whatever the entities, a conflict under strategy ['manual'] ends in a
    [saveRemote] call with the entity [resolveConflict] marked, and in the
    saved entity tagged synced. *)
Lemma manual_strategy_saves_resolved (m : t) (entityType : string)
    (local remote saved : SyncableEntity) (r : ConflictResolution)
    (saveRemote : SyncableEntity -> outcome SyncableEntity) (now : Z) :
  isOnline (status m) = true ->
  conflictStrategies m !! entityType = Some r -> strategy r = StrategyManual ->
  updatedAt remote > syncedAtOr0 local -> updatedAt local > syncedAtOr0 local ->
  saveRemote (markLocal local) = Returned saved ->
  let res := syncEntity m entityType local (Returned (Some remote)) saveRemote now in
  saveRemoteCalls (fst res) = [markLocal local] /\
  snd res = Returned (markSynced now saved).
Proof.
  intros Hon Hr Hman Hrem Hloc Hsave res. subst res.
  unfold syncEntity. rewrite Hon. simpl.
  unfold mbind, M_bind, bind, awaitFetchRemote, awaitSaveRemote, tryCatch, emit, ret.
  assert ((updatedAt remote >? syncedAtOr0 local) = true) as -> by lia.
  assert ((updatedAt local >? syncedAtOr0 local) = true) as -> by lia.
  simpl. unfold resolveConflict. rewrite Hr, Hman, Hsave. by simpl.
Qed.

(** ** Further properties of the coordinator *)

Fixpoint fetchRemoteCalls (w : list Effect) : nat :=
  match w with
  | [] => 0
  | FetchRemoteCalled :: w' => S (fetchRemoteCalls w')
  | _ :: w' => fetchRemoteCalls w'
  end.

(** The types of the events a computation emitted. *)
Fixpoint emitted (w : list Effect) : list SyncEventType :=
  match w with
  | [] => []
  | Emitted e :: w' => type e :: emitted w'
  | _ :: w' => emitted w'
  end.

(** Both sides changed since the last confirmed sync point. *)
Definition inConflict (local remote : SyncableEntity) : Prop :=
  updatedAt remote > syncedAtOr0 local /\ updatedAt local > syncedAtOr0 local.

Ltac run_syncEntity :=
  unfold syncEntity, mbind, M_bind, bind, awaitFetchRemote, awaitSaveRemote,
    tryCatch, emit, ret.

(** [syncEntity] makes no remote call while offline; online it calls
    [fetchRemote] exactly once and [saveRemote] at most once. *)
Theorem syncEntity_remote_calls (m : t) (entityType : string)
    (local : SyncableEntity) (fetchRemote : outcome (option SyncableEntity))
    (saveRemote : SyncableEntity -> outcome SyncableEntity) (now : Z) :
  let r := syncEntity m entityType local fetchRemote saveRemote now in
  (length (saveRemoteCalls (fst r)) <= 1)%nat /\
  if isOnline (status m)
  then fetchRemoteCalls (fst r) = 1%nat
  else fst r = [] /\ snd r = Returned (markLocal local).
Proof.
  intros r. subst r. run_syncEntity.
  destruct (isOnline (status m)); simpl; [|split; [lia|done]].
  destruct fetchRemote as [[remote|]|e]; simpl.
  - destruct ((updatedAt remote >? syncedAtOr0 local)
              && (updatedAt local >? syncedAtOr0 local)); simpl.
    + destruct (saveRemote _); simpl; split; (lia || done).
    + destruct (updatedAt local >? updatedAt remote); simpl.
      * destruct (saveRemote local); simpl; split; (lia || done).
      * split; (lia || done).
  - destruct (saveRemote local); simpl; split; (lia || done).
  - split; (lia || done).
Qed.

(** What [syncEntity] returns is either the local entity flagged
    [isLocal = true], or an entity stamped [syncedAt = now] and flagged
    [isLocal = false]; the second only when the coordinator is online,
    [fetchRemote] resolved and every [saveRemote] call made resolved. *)
Theorem syncEntity_result_tag (m : t) (entityType : string)
    (local : SyncableEntity) (fetchRemote : outcome (option SyncableEntity))
    (saveRemote : SyncableEntity -> outcome SyncableEntity) (now : Z) :
  let r := syncEntity m entityType local fetchRemote saveRemote now in
  snd r = Returned (markLocal local) \/
  (exists e found,
      snd r = Returned (markSynced now e) /\
      isOnline (status m) = true /\ fetchRemote = Returned found /\
      Forall (fun x => exists s, saveRemote x = Returned s) (saveRemoteCalls (fst r))).
Proof.
  intros r. subst r. run_syncEntity.
  destruct (isOnline (status m)); simpl; [|by left].
  destruct fetchRemote as [[remote|]|e]; simpl.
  - destruct ((updatedAt remote >? syncedAtOr0 local)
              && (updatedAt local >? syncedAtOr0 local)); simpl.
    + destruct (saveRemote _) as [saved|e] eqn:Hs; simpl; [|by left].
      right. exists saved, (Some remote). repeat split; try done.
      constructor; [eauto|constructor].
    + destruct (updatedAt local >? updatedAt remote); simpl.
      * destruct (saveRemote local) as [saved|e] eqn:Hs; simpl; [|by left].
        right. exists saved, (Some remote). repeat split; try done.
        constructor; [eauto|constructor].
      * right. exists remote, (Some remote). repeat split; try done.
  - destruct (saveRemote local) as [saved|e] eqn:Hs; simpl; [|by left].
    right. exists saved, None. repeat split; try done.
    constructor; [eauto|constructor].
  - by left.
Qed.

(** On a conflict the registered strategy decides what is saved: ['remote']
    saves the remote entity, ['local'] the local one, ['merge'] what the
    resolver makes of the two (the local one if no resolver was given).
    The only event emitted is [conflict_detected]; when [saveRemote]
    resolves, its result is returned tagged synced. *)
Theorem conflict_strategy_decides (m : t) (entityType : string)
    (local remote : SyncableEntity) (r : ConflictResolution)
    (saveRemote : SyncableEntity -> outcome SyncableEntity) (now : Z) :
  isOnline (status m) = true -> inConflict local remote ->
  conflictStrategies m !! entityType = Some r -> strategy r <> StrategyManual ->
  let chosen :=
    match strategy r, resolver r with
    | StrategyRemote, _ => remote
    | StrategyMerge, Some f => f local remote
    | _, _ => local
    end in
  let res := syncEntity m entityType local (Returned (Some remote)) saveRemote now in
  saveRemoteCalls (fst res) = [chosen] /\
  emitted (fst res) = [ConflictDetected] /\
  (forall saved, saveRemote chosen = Returned saved ->
                 snd res = Returned (markSynced now saved)).
Proof.
  intros Hon [Hrem Hloc] Hr Hman chosen res. subst res chosen.
  run_syncEntity. rewrite Hon. simpl.
  assert ((updatedAt remote >? syncedAtOr0 local) = true) as -> by lia.
  assert ((updatedAt local >? syncedAtOr0 local) = true) as -> by lia.
  simpl. unfold resolveConflict. rewrite Hr.
  destruct (strategy r); try done;
    try (destruct (resolver r) as [f|]);
    match goal with
    | |- context [saveRemote ?x] => destruct (saveRemote x) eqn:Hs
    end; simpl; repeat split; intros; congruence.
Qed.

(** On a conflict with no strategy registered the entity with the greater
    [updatedAt] is saved, the remote one on a tie: what is saved is never
    older than either side. *)
Theorem default_policy_last_writer_wins (m : t) (entityType : string)
    (local remote : SyncableEntity)
    (saveRemote : SyncableEntity -> outcome SyncableEntity) (now : Z) :
  isOnline (status m) = true -> inConflict local remote ->
  conflictStrategies m !! entityType = None ->
  let res := syncEntity m entityType local (Returned (Some remote)) saveRemote now in
  exists chosen,
    saveRemoteCalls (fst res) = [chosen] /\
    updatedAt chosen = Z.max (updatedAt local) (updatedAt remote) /\
    (updatedAt local > updatedAt remote -> chosen = local) /\
    (updatedAt local <= updatedAt remote -> chosen = remote).
Proof.
  intros Hon [Hrem Hloc] Hnone res. subst res.
  run_syncEntity. rewrite Hon. simpl.
  assert ((updatedAt remote >? syncedAtOr0 local) = true) as -> by lia.
  assert ((updatedAt local >? syncedAtOr0 local) = true) as -> by lia.
  simpl. unfold resolveConflict. rewrite Hnone.
  destruct (updatedAt local >? updatedAt remote) eqn:Hgt.
  - exists local. destruct (saveRemote local); simpl; repeat split; try done; lia.
  - exists remote. destruct (saveRemote remote); simpl; repeat split; try done; lia.
Qed.

(** When only the local side changed since the last sync point, or no remote
    copy exists, the local entity is pushed: [saveRemote] is called with it,
    no conflict is reported, and when the call resolves [entity_synced] is
    emitted and the saved entity is returned tagged synced. *)
Theorem syncEntity_pushes_local_change (m : t) (entityType : string)
    (local saved : SyncableEntity) (found : option SyncableEntity)
    (saveRemote : SyncableEntity -> outcome SyncableEntity) (now : Z) :
  isOnline (status m) = true ->
  (forall remote, found = Some remote ->
     updatedAt remote <= syncedAtOr0 local /\ syncedAtOr0 local < updatedAt local) ->
  saveRemote local = Returned saved ->
  syncEntity m entityType local (Returned found) saveRemote now
  = ([FetchRemoteCalled; SaveRemoteCalled local;
      Emitted (mkEvent EntitySynced now (SyncedData entityType (id local)))],
     Returned (markSynced now saved)).
Proof.
  intros Hon Hfound Hsave. run_syncEntity. rewrite Hon. simpl.
  destruct found as [remote|]; simpl.
  - destruct (Hfound remote eq_refl) as [Hrem Hloc].
    assert ((updatedAt remote >? syncedAtOr0 local) = false) as -> by lia.
    simpl.
    assert ((updatedAt local >? updatedAt remote) = true) as -> by lia.
    simpl. by rewrite Hsave.
  - by rewrite Hsave.
Qed.

(** When only the remote side changed since the last sync point, the remote
    entity is accepted as it is: [fetchRemote] is the only call made, no
    event is emitted, and the remote entity is returned tagged synced. *)
Theorem syncEntity_accepts_remote_change (m : t) (entityType : string)
    (local remote : SyncableEntity)
    (saveRemote : SyncableEntity -> outcome SyncableEntity) (now : Z) :
  isOnline (status m) = true ->
  updatedAt local <= syncedAtOr0 local -> syncedAtOr0 local < updatedAt remote ->
  syncEntity m entityType local (Returned (Some remote)) saveRemote now
  = ([FetchRemoteCalled], Returned (markSynced now remote)).
Proof.
  intros Hon Hloc Hrem. run_syncEntity. rewrite Hon. simpl.
  assert ((updatedAt local >? syncedAtOr0 local) = false) as -> by lia.
  rewrite andb_false_r.
  assert ((updatedAt local >? updatedAt remote) = false) as -> by lia.
  done.
Qed.


(** The events of a [setOnline] call, in full: [offline] alone for
    [false]; for [true], [online] followed by the events of a sync exactly
    when the coordinator was offline and no sync was in flight.  After the
    call the coordinator and its queue both hold the value passed. *)
Theorem setOnline_events (online : bool) (storeWrite : outcome unit) (now : Z)
    (m : t) :
  map type (snd (setOnline online storeWrite now m))
  = (if online
     then Online ::
          (if isOnline (status m) || isSyncing (status m) then []
           else [SyncStarted;
                 match storeWrite with
                 | Returned _ => SyncCompleted
                 | Thrown _ => SyncFailed
                 end])
     else [Offline]) /\
  isOnline (status (fst (setOnline online storeWrite now m))) = online /\
  OfflineQueue.online _ (queue (fst (setOnline online storeWrite now m))) = online.
Proof.
  unfold setOnline, sync, OfflineQueue.setOnlineStart, OfflineQueue.startPass,
    OfflineQueue.processQueue.
  destruct online; simpl; [|done].
  destruct (isOnline (status m)) eqn:Hon; simpl.
  - split; [done|]. split; [done|].
    by destruct (negb (OfflineQueue.online Payload (queue m))),
                (OfflineQueue.processing Payload (queue m)).
  - destruct (isSyncing (status m)) eqn:Hsync; simpl.
    + split; [done|]. split; [done|].
      by destruct (negb (OfflineQueue.online Payload (queue m))),
                  (OfflineQueue.processing Payload (queue m)).
    + destruct (negb (OfflineQueue.online Payload (queue m))),
               (OfflineQueue.processing Payload (queue m));
        simpl; destruct storeWrite; simpl; try done;
        rewrite ?OfflineQueue.runPass_spec; done.
Qed.

End Entities.

Arguments mkEntity {Fields}.
Arguments mkResolution {Fields}.
Arguments mkManager {Fields Payload}.
Arguments create {Fields Payload}.
Arguments setConflictStrategy {Fields Payload}.
Arguments syncEntity {Fields Payload}.
Arguments setOnline {Fields Payload}.
Arguments markLocal {Fields}.
Arguments markSynced {Fields}.
Arguments saveRemoteCalls {Fields}.
Arguments isLocal {Fields}.
Arguments Emitted {Fields}.
Arguments FetchRemoteCalled {Fields}.
Arguments SaveRemoteCalled {Fields}.
Arguments mkEvent {Fields}.
Arguments ConflictData {Fields}.
Arguments NoData {Fields}.
Arguments type {Fields}.

(** *** Concrete entities *)

(** A coordinator as its constructor leaves it: online, nothing registered. *)
Definition fresh : t string string :=
  create (OfflineQueue.create OfflineQueue.defaultOptions).

Definition localNote : SyncableEntity string :=
  mkEntity "n1" 10 (Some 5) None "local text".

Definition remoteNote8 : SyncableEntity string :=
  mkEntity "n1" 8 (Some 8) None "remote text".

Definition remoteNote9 : SyncableEntity string :=
  mkEntity "n1" 9 (Some 9) None "remote text".

(** A [saveRemote] that resolves to the entity it was given. *)
Definition echo : SyncableEntity string -> outcome (SyncableEntity string) :=
  fun e => Returned e.

Definition unreachable : SyncableEntity string -> outcome (SyncableEntity string) :=
  fun _ => Thrown (Some "ECONNREFUSED").

Definition manualNotes : t string string :=
  setConflictStrategy "note" (mkResolution StrategyManual None) fresh.



(** The fallback of the witness above is taken: [saveRemote] is called
    and throws. *)
Example syncEntity_save_throws :
  syncEntity fresh "note" localNote (Returned (Some remoteNote8)) unreachable 20
  = ([FetchRemoteCalled;
      Emitted (mkEvent ConflictDetected 20
                 (ConflictData "note" "n1" localNote remoteNote8));
      SaveRemoteCalled localNote],
     Returned (markLocal localNote)).
Proof. reflexivity. Qed.

(** C1. With strategy ['manual'] and a detected conflict (local
    [updatedAt = 10], [syncedAt = 5]; remote [updatedAt = 9]), [syncEntity]
    passes the entity [resolveConflict] flagged [isLocal = true] to
    [saveRemote] and returns the saved entity tagged [isLocal = false]. *)
Theorem manual_conflict_is_saved :
  syncEntity manualNotes "note" localNote (Returned (Some remoteNote9)) echo 20
  = ([FetchRemoteCalled;
      Emitted (mkEvent ConflictDetected 20
                 (ConflictData "note" "n1" localNote remoteNote9));
      SaveRemoteCalled (mkEntity "n1" 10 (Some 5) (Some true) "local text")],
     Returned (mkEntity "n1" 10 (Some 20) (Some false) "local text")).
Proof. reflexivity. Qed.

(** C7, counterexample. A coordinator that is online emits ['online'] when
    told it is online, and one that is offline emits ['offline'] when told
    it is offline: neither call is a transition. *)
Lemma setOnline_emits_without_transition :
  isOnline (status _ _ fresh) = true /\
  map type (snd (setOnline true (Returned tt) 20 fresh)) = [Online] /\
  let off := fst (setOnline false (Returned tt) 30 fresh) in
  isOnline (status _ _ off) = false /\
  map type (snd (setOnline false (Returned tt) 40 off)) = [Offline].
Proof. repeat split. Qed.

(** *** Concrete entities for the further properties *)

Arguments emitted {Fields}.
Arguments fetchRemoteCalls {Fields}.
Arguments inConflict {Fields}.
Arguments sync {Fields Payload}.
Arguments status {Fields Payload}.
Arguments queue {Fields Payload}.
Arguments savedStatus {Fields Payload}.
Arguments updatedAt {Fields}.

Definition remoteWins : t string string :=
  setConflictStrategy "note" (mkResolution StrategyRemote None) fresh.

(** A remote copy that did not change since the local sync point. *)
Definition remoteNote4 : SyncableEntity string :=
  mkEntity "n1" 4 (Some 4) None "remote text".

(** A local copy that did not change since its sync point. *)
Definition syncedNote : SyncableEntity string :=
  mkEntity "n1" 5 (Some 5) (Some false) "local text".

Lemma conflict_strategy_decides_witness :
  let res := syncEntity remoteWins "note" localNote (Returned (Some remoteNote9)) echo 20 in
  saveRemoteCalls (fst res) = [remoteNote9] /\
  emitted (fst res) = [ConflictDetected] /\
  (forall saved, echo remoteNote9 = Returned saved ->
                 snd res = Returned (markSynced 20 saved)).
Proof.
  apply (conflict_strategy_decides string string remoteWins "note" localNote
           remoteNote9 (mkResolution StrategyRemote None) echo 20).
  - reflexivity.
  - unfold inConflict, syncedAtOr0. simpl. lia.
  - reflexivity.
  - simpl. discriminate.
Defined.

Lemma default_policy_last_writer_wins_witness :
  let res := syncEntity fresh "note" localNote (Returned (Some remoteNote9)) echo 20 in
  exists chosen,
    saveRemoteCalls (fst res) = [chosen] /\
    updatedAt chosen = Z.max (updatedAt localNote) (updatedAt remoteNote9) /\
    (updatedAt localNote > updatedAt remoteNote9 -> chosen = localNote) /\
    (updatedAt localNote <= updatedAt remoteNote9 -> chosen = remoteNote9).
Proof.
  apply (default_policy_last_writer_wins string string fresh "note" localNote
           remoteNote9 echo 20).
  - reflexivity.
  - unfold inConflict, syncedAtOr0. simpl. lia.
  - reflexivity.
Defined.

Lemma syncEntity_pushes_local_change_witness :
  syncEntity fresh "note" localNote (Returned (Some remoteNote4)) echo 20
  = ([FetchRemoteCalled; SaveRemoteCalled localNote;
      Emitted (mkEvent EntitySynced 20 (SyncedData _ "note" "n1"))],
     Returned (markSynced 20 localNote)).
Proof.
  apply (syncEntity_pushes_local_change string string fresh "note" localNote
           localNote (Some remoteNote4) echo 20).
  - reflexivity.
  - intros remote [= <-]. unfold syncedAtOr0. simpl. lia.
  - reflexivity.
Defined.

Lemma syncEntity_accepts_remote_change_witness :
  syncEntity fresh "note" syncedNote (Returned (Some remoteNote9)) echo 20
  = ([FetchRemoteCalled], Returned (markSynced 20 remoteNote9)).
Proof.
  apply (syncEntity_accepts_remote_change string string fresh "note" syncedNote
           remoteNote9 echo 20).
  - reflexivity.
  - unfold syncedAtOr0. simpl. lia.
  - unfold syncedAtOr0. simpl. lia.
Defined.


End SyncManager.

(** * Cache manager *)

Module CacheManager.

Section Cache.

Variable Data : Type.

Record CacheEntry : Type := mkEntry {
  data : Data;
  timestamp : Z;
  ttl : Z;
  key : string
}.

Record CacheOptions : Type := mkOptions {
  defaultTtl : Z;
  maxEntries : Z;
  cleanupInterval : Z
}.

Definition defaultOptions : CacheOptions := mkOptions 300000 1000 60000.

(** *** The in-process tier

    A JavaScript [Map] iterates in insertion order, and [evictOldest]
    depends on that order when timestamps tie: the tier is an association
    list, oldest insertion first. *)

Abbreviation JsMap := (list (string * CacheEntry)).

Fixpoint mapGet (k : string) (m : JsMap) : option CacheEntry :=
  match m with
  | [] => None
  | (k', e) :: m' => if String.eqb k' k then Some e else mapGet k m'
  end.

(** [Map.prototype.set]: an existing key keeps its position. *)
Fixpoint mapSet (k : string) (e : CacheEntry) (m : JsMap) : JsMap :=
  match m with
  | [] => [(k, e)]
  | (k', e') :: m' =>
      if String.eqb k' k then (k, e) :: m' else (k', e') :: mapSet k e m'
  end.

Fixpoint mapDelete (k : string) (m : JsMap) : JsMap :=
  match m with
  | [] => []
  | (k', e') :: m' =>
      if String.eqb k' k then m' else (k', e') :: mapDelete k m'
  end.

Definition mapSize (m : JsMap) : Z := Z.of_nat (length m).

(** *** The persistent tier

    A store that keeps what it is given, or one whose every call throws. *)

Record StorageAdapter : Type := mkStorage {
  content : gmap string CacheEntry;
  failing : bool
}.

Definition storageGet (k : string) (s : StorageAdapter) : outcome (option CacheEntry) :=
  if failing s then Thrown (Some "storage error") else Returned (content s !! k).

Definition storageSet (k : string) (e : CacheEntry) (s : StorageAdapter)
    : outcome StorageAdapter :=
  if failing s then Thrown (Some "storage error")
  else Returned (mkStorage (<[k := e]> (content s)) false).

Definition storageRemove (k : string) (s : StorageAdapter) : outcome StorageAdapter :=
  if failing s then Thrown (Some "storage error")
  else Returned (mkStorage (delete k (content s)) false).

Record t : Type := mkCache {
  storage : StorageAdapter;
  options : CacheOptions;
  memoryCache : JsMap
}.

Definition create (s : StorageAdapter) (o : CacheOptions) : t := mkCache s o [].

Definition isExpired (now : Z) (e : CacheEntry) : bool :=
  now - timestamp e >? ttl e.

Definition storageKey (k : string) : string := "cache:" +:+ k.

Definition get (k : string) (now : Z) (c : t) : t * option Data :=
  let fromStorage :=
    match storageGet (storageKey k) (storage c) with
    | Returned (Some stored) =>
        if negb (isExpired now stored)
        then (mkCache (storage c) (options c) (mapSet k stored (memoryCache c)),
              Some (data stored))
        else (c, None)
    | Returned None => (c, None)
    | Thrown _ => (c, None)
    end in
  match mapGet k (memoryCache c) with
  | Some memEntry =>
      if negb (isExpired now memEntry) then (c, Some (data memEntry))
      else fromStorage
  | None => fromStorage
  end.

(** The loop of [evictOldest]: the accumulator is [(oldestKey, oldestTime)],
    with [None] for [null] and for [Infinity]. *)
Definition olderThan (ts : Z) (oldestTime : option Z) : bool :=
  match oldestTime with
  | None => true
  | Some o => ts <? o
  end.

Definition scanStep (acc : option string * option Z) (x : string * CacheEntry)
    : option string * option Z :=
  if olderThan (timestamp (snd x)) (snd acc)
  then (Some (fst x), Some (timestamp (snd x)))
  else acc.

Definition scanOldest (m : JsMap) : option string * option Z :=
  foldl scanStep (None, None) m.

(** [if (oldestKey)]: [null] and the empty string are falsy. *)
Definition truthy (k : option string) : bool :=
  match k with
  | None => false
  | Some s => negb (String.eqb s "")
  end.

Definition evictOldest (m : JsMap) : JsMap :=
  let oldestKey := fst (scanOldest m) in
  if truthy oldestKey
  then match oldestKey with Some k => mapDelete k m | None => m end
  else m.

Definition set (k : string) (d : Data) (ttl' : option Z) (now : Z) (c : t) : t :=
  let entry := mkEntry d now (default (defaultTtl (options c)) ttl') k in
  let mem1 :=
    if mapSize (memoryCache c) >=? maxEntries (options c)
    then evictOldest (memoryCache c) else memoryCache c in
  let mem2 := mapSet k entry mem1 in
  match storageSet (storageKey k) entry (storage c) with
  | Returned s' => mkCache s' (options c) mem2
  | Thrown _ => mkCache (storage c) (options c) mem2
  end.

Definition delete_ (k : string) (c : t) : t :=
  let mem := mapDelete k (memoryCache c) in
  match storageRemove (storageKey k) (storage c) with
  | Returned s' => mkCache s' (options c) mem
  | Thrown _ => mkCache (storage c) (options c) mem
  end.

(** [clear]: the in-process tier is emptied and every key of the store that
    starts with ['cache:'] is removed. *)
Definition isCacheKey (k : string) : bool :=
  String.prefix "cache:" k.

Definition clear (c : t) : t :=
  let s := storage c in
  let s' :=
    if failing s then s
    else mkStorage (filter (fun kv => isCacheKey (fst kv) = false) (content s)) false in
  mkCache s' (options c) [].

Definition has (k : string) (now : Z) (c : t) : t * bool :=
  let '(c', v) := get k now c in
  (c', match v with Some _ => true | None => false end).

(** The callback of the cleanup timer. *)
Definition cleanup (now : Z) (c : t) : t :=
  mkCache (storage c) (options c)
          (List.filter (fun kv => negb (isExpired now (snd kv))) (memoryCache c)).

Definition keys (m : JsMap) : list string := map fst m.

(** *** What the scan finds *)

Lemma scanOldest_snoc (m : JsMap) (x : string * CacheEntry) :
  scanOldest (m ++ [x]) = scanStep (scanOldest m) x.
Proof. unfold scanOldest. by rewrite foldl_app. Qed.

(** On a non-empty tier the scan ends on the key of an entry whose write
    timestamp no other entry undercuts. *)
Lemma scanOldest_minimal (m : JsMap) :
  m <> [] ->
  exists k e,
    scanOldest m = (Some k, Some (timestamp e)) /\ In (k, e) m /\
    forall k' e', In (k', e') m -> timestamp e <= timestamp e'.
Proof.
  induction m as [|x m IH] using rev_ind; [done|]. intros _.
  rewrite scanOldest_snoc. destruct x as [kx ex].
  destruct m as [|y m'].
  - simpl. exists kx, ex. repeat split; [by left|].
    intros k' e' [[= <- <-]|[]]. lia.
  - destruct IH as (k & e & Hscan & Hin & Hmin); [done|].
    rewrite Hscan. unfold scanStep. cbn [fst snd olderThan].
    destruct (timestamp ex <? timestamp e) eqn:Hlt.
    + exists kx, ex. repeat split.
      * apply in_or_app. right. by left.
      * intros k' e' Hin'. apply in_app_or in Hin' as [Hin'|[[= <- <-]|[]]]; [|lia].
        specialize (Hmin _ _ Hin'). lia.
    + exists k, e. repeat split.
      * apply in_or_app. by left.
      * intros k' e' Hin'. apply in_app_or in Hin' as [Hin'|[[= <- <-]|[]]]; [|lia].
        exact (Hmin _ _ Hin').
Qed.

Lemma mapGet_mapSet_ne (k k' : string) (e : CacheEntry) (m : JsMap) :
  k <> k' -> mapGet k' (mapSet k e m) = mapGet k' m.
Proof.
  intros Hne. induction m as [|[k0 e0] m IH]; simpl.
  - by rewrite (proj2 (String.eqb_neq k k')).
  - destruct (String.eqb k0 k) eqn:Hk; simpl.
    + apply String.eqb_eq in Hk as ->.
      by rewrite (proj2 (String.eqb_neq k k')).
    + destruct (String.eqb k0 k'); [done|exact IH].
Qed.

Lemma mapGet_mapDelete_ne (k k' : string) (m : JsMap) :
  k <> k' -> mapGet k' (mapDelete k m) = mapGet k' m.
Proof.
  intros Hne. induction m as [|[k0 e0] m IH]; simpl; [done|].
  destruct (String.eqb k0 k) eqn:Hk; simpl.
  - apply String.eqb_eq in Hk as ->.
    by rewrite (proj2 (String.eqb_neq k k')).
  - destruct (String.eqb k0 k'); [done|exact IH].
Qed.

Lemma mapSet_fresh (k : string) (e : CacheEntry) (m : JsMap) :
  mapGet k m = None -> mapSet k e m = m ++ [(k, e)].
Proof.
  induction m as [|[k0 e0] m IH]; simpl; [done|].
  destruct (String.eqb k0 k); [done|]. intros H. by rewrite IH.
Qed.

Lemma mapDelete_length (k : string) (e : CacheEntry) (m : JsMap) :
  In (k, e) m -> S (length (mapDelete k m)) = length m.
Proof.
  induction m as [|[k0 e0] m IH]; simpl; [done|].
  destruct (String.eqb k0 k) eqn:Hk; [done|].
  intros [[= -> ->]|Hin].
  - by rewrite String.eqb_refl in Hk.
  - simpl. by rewrite IH.
Qed.

Lemma mapGet_mapDelete_None (k k' : string) (m : JsMap) :
  mapGet k' m = None -> mapGet k' (mapDelete k m) = None.
Proof.
  induction m as [|[k0 e0] m IH]; simpl; [done|].
  destruct (String.eqb k0 k') eqn:Hk'; [done|]. intros H.
  destruct (String.eqb k0 k); simpl; [done|]. rewrite Hk'. by apply IH.
Qed.

(** *** Eviction when the oldest key is not the empty string

    In a tier that holds exactly [maxEntries >= 1] entries and whose
    oldest-written entry has a non-empty key, [set] of a fresh key removes
    that entry and no other, appends the new one, leaves the size at
    [maxEntries], and every other entry is still returned by [get] while
    it is unexpired. *)
Lemma set_evicts_oldest (c : t) (k : string) (d : Data) (ttl' : option Z) (now : Z) :
  1 <= maxEntries (options c) ->
  mapSize (memoryCache c) = maxEntries (options c) ->
  mapGet k (memoryCache c) = None ->
  truthy (fst (scanOldest (memoryCache c))) = true ->
  exists ko eo,
    In (ko, eo) (memoryCache c) /\
    (forall k' e', In (k', e') (memoryCache c) -> timestamp eo <= timestamp e') /\
    memoryCache (set k d ttl' now c)
    = mapDelete ko (memoryCache c)
        ++ [(k, mkEntry d now (default (defaultTtl (options c)) ttl') k)] /\
    mapSize (memoryCache (set k d ttl' now c)) = maxEntries (options c) /\
    forall k' e' later,
      k' <> ko -> mapGet k' (memoryCache c) = Some e' ->
      isExpired later e' = false ->
      snd (get k' later (set k d ttl' now c)) = Some (data e').
Proof.
  intros Hmax Hsize Hfresh Htruthy.
  assert (memoryCache c <> []) as Hne.
  { intros E. rewrite E in Hsize. unfold mapSize in Hsize. simpl in Hsize. lia. }
  destruct (scanOldest_minimal _ Hne) as (ko & eo & Hscan & Hin & Hmin).
  exists ko, eo. split; [exact Hin|]. split; [exact Hmin|].
  assert (memoryCache (set k d ttl' now c)
          = mapDelete ko (memoryCache c)
              ++ [(k, mkEntry d now (default (defaultTtl (options c)) ttl') k)])
    as Hmem.
  { unfold set. rewrite Hsize.
    assert ((maxEntries (options c) >=? maxEntries (options c)) = true) as -> by lia.
    unfold evictOldest. rewrite Htruthy, Hscan. simpl.
    rewrite mapSet_fresh by (by apply mapGet_mapDelete_None).
    by destruct (storageSet _ _ _). }
  split; [exact Hmem|]. split.
  - rewrite Hmem. unfold mapSize in *. rewrite length_app. simpl.
    pose proof (mapDelete_length _ _ _ Hin). lia.
  - intros k' e' later Hko Hget Hexp.
    assert (k <> k') as Hk by (intros ->; congruence).
    unfold get.
    assert (mapGet k' (memoryCache (set k d ttl' now c)) = Some e') as ->.
    { unfold set.
      rewrite Hsize.
      assert ((maxEntries (options c) >=? maxEntries (options c)) = true) as -> by lia.
      unfold evictOldest. rewrite Htruthy, Hscan. simpl.
      destruct (storageSet _ _ _); simpl;
        by rewrite mapGet_mapSet_ne, mapGet_mapDelete_ne. }
    by rewrite Hexp.
Qed.

(** ** Further properties of the cache *)

(** The keys of a [Map] are distinct. *)
Definition distinctKeys (m : JsMap) : Prop := NoDup (keys m).

(** The time to live [set] gives an entry: [ttl ?? this.options.defaultTtl]. *)
Definition effectiveTtl (ttl' : option Z) (c : t) : Z :=
  default (defaultTtl (options c)) ttl'.

Lemma mapGet_mapSet_eq (k : string) (e : CacheEntry) (m : JsMap) :
  mapGet k (mapSet k e m) = Some e.
Proof.
  induction m as [|[k0 e0] m IH]; simpl.
  - by rewrite String.eqb_refl.
  - destruct (String.eqb k0 k) eqn:Hk; simpl.
    + by rewrite String.eqb_refl.
    + by rewrite Hk.
Qed.

Lemma mapGet_absent (k : string) (m : JsMap) :
  ~ In k (keys m) -> mapGet k m = None.
Proof.
  induction m as [|[k0 e0] m IH]; simpl; [done|]. intros Hnot.
  destruct (String.eqb k0 k) eqn:Hk.
  - apply String.eqb_eq in Hk. tauto.
  - apply IH. tauto.
Qed.

Lemma mapGet_In (k : string) (e : CacheEntry) (m : JsMap) :
  mapGet k m = Some e -> In (k, e) m.
Proof.
  induction m as [|[k0 e0] m IH]; simpl; [done|].
  destruct (String.eqb k0 k) eqn:Hk.
  - apply String.eqb_eq in Hk as ->. intros [= ->]. by left.
  - intros H. right. by apply IH.
Qed.

Lemma keys_mapDelete_incl (k k' : string) (m : JsMap) :
  In k' (keys (mapDelete k m)) -> In k' (keys m).
Proof.
  induction m as [|[k0 e0] m IH]; simpl; [done|].
  destruct (String.eqb k0 k); simpl; [tauto|].
  intros [H|H]; [by left|right; by apply IH].
Qed.

Lemma distinctKeys_mapDelete (k : string) (m : JsMap) :
  distinctKeys m -> distinctKeys (mapDelete k m).
Proof.
  unfold distinctKeys. induction m as [|[k0 e0] m IH]; simpl; [done|].
  intros Hnd. apply NoDup_cons in Hnd as [Hnot Hnd].
  destruct (String.eqb k0 k); simpl; [done|].
  apply NoDup_cons. split; [|by apply IH].
  intros Hin. apply Hnot. apply list_elem_of_In.
  apply list_elem_of_In in Hin. by eapply keys_mapDelete_incl.
Qed.

Lemma keys_mapSet_incl (k k' : string) (e : CacheEntry) (m : JsMap) :
  In k' (keys (mapSet k e m)) -> k' = k \/ In k' (keys m).
Proof.
  induction m as [|[k0 e0] m IH]; simpl; [intros [->|[]]; by left|].
  destruct (String.eqb k0 k) eqn:Hk; simpl.
  - apply String.eqb_eq in Hk as ->. tauto.
  - intros [H|H]; [tauto|]. destruct (IH H); tauto.
Qed.

Lemma distinctKeys_mapSet (k : string) (e : CacheEntry) (m : JsMap) :
  distinctKeys m -> distinctKeys (mapSet k e m).
Proof.
  unfold distinctKeys. induction m as [|[k0 e0] m IH]; simpl.
  - intros _. apply NoDup_singleton.
  - intros Hnd. apply NoDup_cons in Hnd as [Hnot Hnd].
    destruct (String.eqb k0 k) eqn:Hk; simpl.
    + apply String.eqb_eq in Hk as ->. by apply NoDup_cons.
    + apply NoDup_cons. split; [|by apply IH].
      intros Hin. apply list_elem_of_In, keys_mapSet_incl in Hin as [->|Hin].
      * by rewrite String.eqb_refl in Hk.
      * apply Hnot. by apply list_elem_of_In.
Qed.

Lemma mapGet_mapDelete_eq (k : string) (m : JsMap) :
  distinctKeys m -> mapGet k (mapDelete k m) = None.
Proof.
  unfold distinctKeys. induction m as [|[k0 e0] m IH]; simpl; [done|].
  intros Hnd. apply NoDup_cons in Hnd as [Hnot Hnd].
  destruct (String.eqb k0 k) eqn:Hk; simpl.
  - apply String.eqb_eq in Hk as ->. apply mapGet_absent.
    intros Hin. apply Hnot. by apply list_elem_of_In.
  - rewrite Hk. by apply IH.
Qed.

Lemma mapGet_filter (f : CacheEntry -> bool) (k : string) (m : JsMap) :
  distinctKeys m ->
  mapGet k (List.filter (fun kv => f (snd kv)) m)
  = match mapGet k m with
    | Some e => if f e then Some e else None
    | None => None
    end.
Proof.
  unfold distinctKeys. induction m as [|[k0 e0] m IH]; simpl; [done|].
  intros Hnd. apply NoDup_cons in Hnd as [Hnot Hnd].
  destruct (String.eqb k0 k) eqn:Hk.
  - apply String.eqb_eq in Hk as ->.
    destruct (f e0) eqn:Hf; simpl.
    + by rewrite String.eqb_refl.
    + apply mapGet_absent. intros Hin. apply Hnot, list_elem_of_In.
      unfold keys in *. apply in_map_iff in Hin as (kv & Hkv & Hin).
      apply filter_In in Hin as [Hin _]. apply in_map_iff. eauto.
  - destruct (f e0); simpl; rewrite ?Hk; by apply IH.
Qed.

Lemma length_mapSet_le (k : string) (e : CacheEntry) (m : JsMap) :
  (length (mapSet k e m) <= S (length m))%nat.
Proof.
  induction m as [|[k0 e0] m IH]; simpl; [lia|].
  destruct (String.eqb k0 k); simpl; lia.
Qed.

Lemma storageKey_inj (k k' : string) : storageKey k = storageKey k' -> k = k'.
Proof. unfold storageKey. intros H. cbn in H. by injection H. Qed.

Lemma isCacheKey_storageKey (k : string) : isCacheKey (storageKey k) = true.
Proof. unfold isCacheKey, storageKey. simpl. by destruct k. Qed.

(** Distinct keys are an invariant of every operation on the tier. *)
Lemma distinctKeys_set k d ttl' now c :
  distinctKeys (memoryCache c) -> distinctKeys (memoryCache (set k d ttl' now c)).
Proof.
  intros Hnd. unfold set.
  assert (distinctKeys
            (if mapSize (memoryCache c) >=? maxEntries (options c)
             then evictOldest (memoryCache c) else memoryCache c)) as Hev.
  { destruct (mapSize (memoryCache c) >=? maxEntries (options c)); [|done].
    unfold evictOldest.
    destruct (truthy (fst (scanOldest (memoryCache c)))); [|done].
    destruct (fst (scanOldest (memoryCache c))); [|done].
    by apply distinctKeys_mapDelete. }
  destruct (storageSet _ _ _); simpl; by apply distinctKeys_mapSet.
Qed.

Lemma distinctKeys_get k now c :
  distinctKeys (memoryCache c) -> distinctKeys (memoryCache (fst (get k now c))).
Proof.
  intros Hnd. unfold get.
  assert (distinctKeys (memoryCache (fst
            match storageGet (storageKey k) (storage c) with
            | Returned (Some stored) =>
                if negb (isExpired now stored)
                then (mkCache (storage c) (options c)
                        (mapSet k stored (memoryCache c)), Some (data stored))
                else (c, None)
            | Returned None => (c, None)
            | Thrown _ => (c, None)
            end))) as Hst.
  { destruct (storageGet _ _) as [[stored|]|]; simpl; try done.
    destruct (negb (isExpired now stored)); simpl; [|done].
    by apply distinctKeys_mapSet. }
  destruct (mapGet k (memoryCache c)) as [e|]; [|done].
  by destruct (negb (isExpired now e)).
Qed.

(** Round trip: whatever the cache held and whether or not the store works,
    a value that was [set] is what [get] returns for its key as long as the
    entry has not expired. *)
Theorem set_then_get (c : t) (k : string) (d : Data) (ttl' : option Z)
    (now later : Z) :
  later - now <= effectiveTtl ttl' c ->
  snd (get k later (set k d ttl' now c)) = Some d.
Proof.
  intros Hfresh. unfold get.
  assert (mapGet k (memoryCache (set k d ttl' now c))
          = Some (mkEntry d now (effectiveTtl ttl' c) k)) as ->.
  { unfold set. destruct (storageSet _ _ _); simpl; apply mapGet_mapSet_eq. }
  unfold isExpired. simpl.
  by assert ((later - now >? effectiveTtl ttl' c) = false) as -> by lia.
Qed.




(** The cleanup sweep leaves only unexpired entries in the in-process tier
    and is invisible to readers: at the time of the sweep [get] returns for
    every key what it returned before. *)
Theorem cleanup_is_invisible (c : t) (k : string) (now : Z) :
  distinctKeys (memoryCache c) ->
  Forall (fun kv => isExpired now (snd kv) = false) (memoryCache (cleanup now c)) /\
  snd (get k now (cleanup now c)) = snd (get k now c).
Proof.
  intros Hnd. split.
  - unfold cleanup. simpl. apply Forall_forall. intros kv Hkv.
    apply list_elem_of_In, filter_In in Hkv as [_ Hkv].
    by apply negb_true_iff in Hkv.
  - unfold get, cleanup. simpl.
    rewrite (mapGet_filter (fun e => negb (isExpired now e))) by done.
    destruct (mapGet k (memoryCache c)) as [e|]; simpl.
    + destruct (negb (isExpired now e)) eqn:He; simpl; [by rewrite He|].
      destruct (storageGet _ _) as [[stored|]|]; simpl; try done.
      by destruct (negb (isExpired now stored)).
    + destruct (storageGet _ _) as [[stored|]|]; simpl; try done.
      by destruct (negb (isExpired now stored)).
Qed.

(** Promotion: after a [get] that found a value, the in-process tier alone
    answers: the same [get] returns the same value even if the store has
    been lost or fails from then on. *)
Theorem get_promotes (c : t) (k : string) (now : Z) (d : Data)
    (s' : StorageAdapter) :
  snd (get k now c) = Some d ->
  snd (get k now (mkCache s' (options c) (memoryCache (fst (get k now c)))))
  = Some d.
Proof.
  unfold get at 1 3.
  destruct (mapGet k (memoryCache c)) as [e|] eqn:Hmem.
  - destruct (negb (isExpired now e)) eqn:He; simpl.
    + intros [= <-]. unfold get. simpl. by rewrite Hmem, He.
    + destruct (storageGet _ _) as [[stored|]|]; simpl; try done.
      destruct (negb (isExpired now stored)) eqn:Hs; simpl; [|done].
      intros [= <-]. unfold get. simpl. by rewrite mapGet_mapSet_eq, Hs.
  - destruct (storageGet _ _) as [[stored|]|]; simpl; try done.
    destruct (negb (isExpired now stored)) eqn:Hs; simpl; [|done].
    intros [= <-]. unfold get. simpl. by rewrite mapGet_mapSet_eq, Hs.
Qed.

(** [set] keeps the in-process tier within [maxEntries >= 1] as long as no
    entry of the tier has the empty string as its key. *)
Theorem set_keeps_capacity (c : t) (k : string) (d : Data) (ttl' : option Z)
    (now : Z) :
  1 <= maxEntries (options c) ->
  mapSize (memoryCache c) <= maxEntries (options c) ->
  ~ In "" (keys (memoryCache c)) ->
  mapSize (memoryCache (set k d ttl' now c)) <= maxEntries (options c).
Proof.
  intros Hmax Hsize Hkeys. unfold set.
  assert (forall m e, mapSize (mapSet k e m) <= mapSize m + 1) as Hset.
  { intros m e. unfold mapSize. pose proof (length_mapSet_le k e m). lia. }
  assert (mapSize (if mapSize (memoryCache c) >=? maxEntries (options c)
                   then evictOldest (memoryCache c) else memoryCache c) + 1
          <= maxEntries (options c)) as Hroom.
  { destruct (mapSize (memoryCache c) >=? maxEntries (options c)) eqn:Hfull; [|lia].
    assert (memoryCache c <> []) as Hne.
    { intros E. rewrite E in Hfull. unfold mapSize in Hfull.
      cbn [length] in Hfull. apply Z.geb_le in Hfull. lia. }
    destruct (scanOldest_minimal _ Hne) as (ko & eo & Hscan & Hin & _).
    unfold evictOldest. rewrite Hscan. simpl.
    assert (String.eqb ko "" = false) as ->.
    { apply String.eqb_neq. intros ->. apply Hkeys.
      unfold keys. apply in_map_iff. by exists ("", eo). }
    simpl. unfold mapSize in *.
    pose proof (mapDelete_length _ _ _ Hin). lia. }
  destruct (storageSet _ _ _); simpl;
    match goal with |- mapSize (mapSet k ?e ?m) <= _ => specialize (Hset m e) end;
    lia.
Qed.

(** A [set] below capacity does not disturb other keys: [get] of a
    different key returns what it returned before the [set]. *)
Theorem set_leaves_other_keys (c : t) (k k' : string) (d : Data)
    (ttl' : option Z) (now later : Z) :
  mapSize (memoryCache c) < maxEntries (options c) -> k <> k' ->
  snd (get k' later (set k d ttl' now c)) = snd (get k' later c).
Proof.
  intros Hroom Hne. unfold get.
  assert (mapGet k' (memoryCache (set k d ttl' now c)) = mapGet k' (memoryCache c))
    as ->.
  { unfold set.
    assert ((mapSize (memoryCache c) >=? maxEntries (options c)) = false) as -> by lia.
    destruct (storageSet _ _ _); simpl; by apply mapGet_mapSet_ne. }
  assert (storageGet (storageKey k') (storage (set k d ttl' now c))
          = storageGet (storageKey k') (storage c)) as Hst.
  { unfold set, storageSet, storageGet.
    destruct (failing (storage c)) eqn:Hfail; simpl; rewrite ?Hfail; [done|].
    rewrite lookup_insert_ne; [done|].
    intros Heq. by apply storageKey_inj in Heq. }
  rewrite Hst. clear Hst.
  destruct (mapGet k' (memoryCache c)) as [e|].
  - destruct (negb (isExpired later e)); [done|].
    destruct (storageGet (storageKey k') (storage c)) as [[stored|]|];
      simpl; try done.
    by destruct (isExpired later stored).
  - destruct (storageGet (storageKey k') (storage c)) as [[stored|]|];
      simpl; try done.
    by destruct (isExpired later stored).
Qed.

End Cache.

Arguments mkEntry {Data}.
Arguments mkStorage {Data}.
Arguments mkCache {Data}.
Arguments create {Data}.
Arguments get {Data}.
Arguments set {Data}.
Arguments memoryCache {Data}.
Arguments options {Data}.
Arguments keys {Data}.
Arguments mapSize {Data}.
Arguments scanOldest {Data}.
Arguments evictOldest {Data}.

(** *** Concrete caches *)

Definition emptyStore : StorageAdapter string := mkStorage ∅ false.

(** Capacity two; the oldest-written entry has the empty string as key. *)
Definition emptyKeyOldest : t string :=
  set "b" "second" None 2
    (set "" "first" None 1 (create emptyStore (mkOptions 300000 2 60000))).

(** Capacity one; ["a"] was written, then evicted by the write of ["b"]. *)
Definition aThenB : t string :=
  set "b" "second" None 2
    (set "a" "first" None 1 (create emptyStore (mkOptions 300000 1 60000))).

(** C9. The tier holds exactly [maxEntries = 2] entries and the one with
    the smallest write timestamp has key [""]: [evictOldest] finds it, takes
    the key for falsy and deletes nothing, so the [set] of a fresh key evicts
    no entry and the tier holds three. *)
Theorem evictOldest_skips_empty_key :
  mapSize (memoryCache emptyKeyOldest) = maxEntries (options emptyKeyOldest) /\
  scanOldest (memoryCache emptyKeyOldest) = (Some "", Some 1) /\
  evictOldest (memoryCache emptyKeyOldest) = memoryCache emptyKeyOldest /\
  keys (memoryCache (set "c" "third" None 3 emptyKeyOldest)) = [""; "b"; "c"].
Proof. repeat split. Qed.

(** C10. With [maxEntries = 1], after ["a"] then ["b"] were written the
    tier holds ["b"] alone; [get "a"] finds the unexpired entry in the store
    and puts it back into the tier without a capacity check: two entries. *)
Theorem get_promotion_exceeds_maxEntries :
  keys (memoryCache aThenB) = ["b"] /\
  snd (get "a" 3 aThenB) = Some "first" /\
  keys (memoryCache (fst (get "a" 3 aThenB))) = ["b"; "a"] /\
  mapSize (memoryCache (fst (get "a" 3 aThenB)))
  > maxEntries (options (fst (get "a" 3 aThenB))).
Proof. by vm_compute. Qed.

Example set_evicts_oldest_example :
  keys (memoryCache
          (set "c" "third" None 3
             (set "b" "second" None 2
                (set "a" "first" None 1
                   (create emptyStore (mkOptions 300000 2 60000))))))
  = ["b"; "c"].
Proof. reflexivity. Qed.

(** *** Concrete caches for the further properties *)

Arguments distinctKeys {Data}.
Arguments effectiveTtl {Data}.
Arguments delete_ {Data}.
Arguments cleanup {Data}.
Arguments isExpired {Data}.

Definition lostStore : StorageAdapter string := mkStorage ∅ true.

(** Capacity two, one entry. *)
Definition oneEntry : t string :=
  set "a" "first" None 1 (create emptyStore (mkOptions 300000 2 60000)).

Lemma aThenB_distinctKeys : distinctKeys (memoryCache aThenB).
Proof. unfold distinctKeys. simpl. apply NoDup_singleton. Qed.

Lemma set_then_get_witness :
  snd (get "c" 300003 (set "c" "third" None 3 aThenB)) = Some "third".
Proof.
  apply (set_then_get string aThenB "c" "third" None 3 300003).
  unfold effectiveTtl. simpl. lia.
Defined.



Lemma cleanup_is_invisible_witness :
  Forall (fun kv => isExpired 400000 (snd kv) = false)
         (memoryCache (cleanup 400000 aThenB)) /\
  snd (get "b" 400000 (cleanup 400000 aThenB)) = snd (get "b" 400000 aThenB).
Proof.
  apply (cleanup_is_invisible string aThenB "b" 400000).
  unfold distinctKeys. simpl. apply NoDup_singleton.
Defined.

Lemma get_promotes_witness :
  snd (get "a" 3 (mkCache lostStore (options aThenB)
                          (memoryCache (fst (get "a" 3 aThenB)))))
  = Some "first".
Proof.
  apply (get_promotes string aThenB "a" 3 "first" lostStore). reflexivity.
Defined.

Lemma set_keeps_capacity_witness :
  mapSize (memoryCache (set "c" "third" None 3 aThenB)) <= maxEntries (options aThenB).
Proof.
  apply (set_keeps_capacity string aThenB "c" "third" None 3).
  - simpl. lia.
  - unfold mapSize. simpl. lia.
  - simpl. intros [H|[]]. discriminate H.
Defined.

Lemma set_leaves_other_keys_witness :
  snd (get "a" 5 (set "b" "second" None 2 oneEntry)) = snd (get "a" 5 oneEntry).
Proof.
  apply (set_leaves_other_keys string oneEntry "b" "a" "second" None 2 5).
  - unfold mapSize. simpl. lia.
  - discriminate.
Defined.

End CacheManager.

(** * Realtime transport client *)

Module JarvisApiClient.

Inductive WebSocketStatus : Type :=
| Connecting | Connected | Disconnected | Reconnecting | Error.

(** [WebSocket.readyState] *)
Inductive ReadyState : Type := CONNECTING | OPEN | CLOSING | CLOSED.

#[export] Instance ReadyState_eq_dec : EqDecision ReadyState.
Proof. solve_decision. Defined.

Record ConnectionConfig : Type := mkConfig {
  baseUrl : string;
  wsUrl : string;
  timeout : Z;
  retryAttempts : Z;
  retryDelay : Z
}.

Definition defaultConfig : ConnectionConfig :=
  mkConfig "http://localhost:3000" "ws://localhost:3000" 30000 3 1000.

(** What [setTimeout] was given: the reconnect callback of
    [attemptReconnect], or the timeout of a [sendAndWait] request. *)
Inductive Timer : Type :=
| ReconnectTimer (delay : Z)
| RequestTimeout (correlationId : string) (delay : Z).

Section Client.

Variable Payload : Type.

Record WebSocketMessage : Type := mkMessage {
  type : string;
  payload : Payload;
  timestamp : Z;
  correlationId : option string
}.

(** The [WebSocket] objects the client creates.  Each keeps the four
    handlers [connect] installed on it, which are closures over the client,
    for as long as the object lives. *)
Record Socket : Type := mkSocket {
  url : string;
  readyState : ReadyState;
  sent : list WebSocketMessage
}.

(** Payloads of the events [emit] delivers. *)
Inductive EventPayload : Type :=
| StatusPayload (s : WebSocketStatus)
| ErrorPayload
| EmptyPayload
| MessagePayload (p : Payload).

Inductive Effect : Type :=
| Delivered (handler : nat) (event : string) (p : EventPayload)
| Resolved (correlationId : string) (p : Payload)
| Rejected (correlationId : string) (message : string)
| ConsoleError (message : string).

Record t : Type := mkClient {
  config : ConnectionConfig;
  tokens : option string;              (* [tokens?.accessToken] *)
  ws : option nat;                     (* [this.ws]: a socket of [sockets] *)
  sockets : list Socket;               (* every socket created so far *)
  wsStatus : WebSocketStatus;
  wsReconnectAttempts : Z;
  eventHandlers : gmap string (list nat);
  pendingRequests : gmap string nat;   (* correlation id to its timeout timer *)
  timers : gmap nat Timer;
  nextTimer : nat
}.

Definition create (cfg : ConnectionConfig) : t :=
  mkClient cfg None None [] Disconnected 0 ∅ ∅ ∅ 0.

Definition withStatus (s : WebSocketStatus) (c : t) : t :=
  mkClient (config c) (tokens c) (ws c) (sockets c) s (wsReconnectAttempts c)
           (eventHandlers c) (pendingRequests c) (timers c) (nextTimer c).

Definition withAttempts (n : Z) (c : t) : t :=
  mkClient (config c) (tokens c) (ws c) (sockets c) (wsStatus c) n
           (eventHandlers c) (pendingRequests c) (timers c) (nextTimer c).

Definition withSockets (w : option nat) (l : list Socket) (c : t) : t :=
  mkClient (config c) (tokens c) w l (wsStatus c) (wsReconnectAttempts c)
           (eventHandlers c) (pendingRequests c) (timers c) (nextTimer c).

Definition withHandlers (h : gmap string (list nat)) (c : t) : t :=
  mkClient (config c) (tokens c) (ws c) (sockets c) (wsStatus c)
           (wsReconnectAttempts c) h (pendingRequests c) (timers c) (nextTimer c).

Definition withRequests (p : gmap string nat) (tm : gmap nat Timer) (next : nat)
    (c : t) : t :=
  mkClient (config c) (tokens c) (ws c) (sockets c) (wsStatus c)
           (wsReconnectAttempts c) (eventHandlers c) p tm next.

(** [setTimeout] *)
Definition setTimeout (tm : Timer) (c : t) : t :=
  withRequests (pendingRequests c) (<[nextTimer c := tm]> (timers c))
               (S (nextTimer c)) c.

(** [emit(event, payload)]: the subscribers of [event], in the order in
    which they were added. *)
Definition emit (event : string) (p : EventPayload) (c : t) : list Effect :=
  match eventHandlers c !! event with
  | Some hs => map (fun h => Delivered h event p) hs
  | None => []
  end.

(** [on(event, handler)] and the unsubscribe function it returns. *)
Definition on (event : string) (handler : nat) (c : t) : t :=
  let hs := default [] (eventHandlers c !! event) in
  withHandlers
    (<[event := if bool_decide (handler ∈ hs) then hs else hs ++ [handler]]>
       (eventHandlers c)) c.

Definition unsubscribe (event : string) (handler : nat) (c : t) : t :=
  match eventHandlers c !! event with
  | Some hs =>
      withHandlers
        (<[event := List.filter (fun h => negb (Nat.eqb h handler)) hs]>
           (eventHandlers c)) c
  | None => c
  end.

Definition isOpen (c : t) : bool :=
  match ws c with
  | Some i =>
      match sockets c !! i with
      | Some s => bool_decide (readyState s = OPEN)
      | None => false
      end
  | None => false
  end.

Definition connect (c : t) : t :=
  if isOpen c then c
  else
    let wsUrl' :=
      match tokens c with
      | Some tok => wsUrl (config c) +:+ "?token=" +:+ tok
      | None => wsUrl (config c)
      end in
    withSockets (Some (length (sockets c)))
                (sockets c ++ [mkSocket wsUrl' CONNECTING []])
                (withStatus Connecting c).

(** [socket.close()]: an open or connecting socket starts closing; its
    [close] event is delivered later. *)
Definition closeSocket (s : Socket) : Socket :=
  match readyState s with
  | CLOSING | CLOSED => s
  | _ => mkSocket (url s) CLOSING (sent s)
  end.

Definition disconnect (c : t) : t :=
  let c1 :=
    match ws c with
    | Some i =>
        match sockets c !! i with
        | Some s => withSockets None (<[i := closeSocket s]> (sockets c)) c
        | None => withSockets None (sockets c) c
        end
    | None => c
    end in
  withStatus Disconnected c1.

Definition attemptReconnect (c : t) : t * list Effect :=
  if wsReconnectAttempts c >=? retryAttempts (config c)
  then (c, emit "reconnect_failed" EmptyPayload c)
  else
    let c1 := withAttempts (wsReconnectAttempts c + 1) (withStatus Reconnecting c) in
    (setTimeout (ReconnectTimer (retryDelay (config c1) * wsReconnectAttempts c1)) c1,
     []).

(** The four handlers [connect] installs on a socket. *)

Definition onopen (c : t) : t * list Effect :=
  let c1 := withAttempts 0 (withStatus Connected c) in
  (c1, emit "connection" (StatusPayload Connected) c1).

Definition onclose (c : t) : t * list Effect :=
  let c1 := withStatus Disconnected c in
  let '(c2, eff) := attemptReconnect c1 in
  (c2, emit "connection" (StatusPayload Disconnected) c1 ++ eff).

Definition onerror (c : t) : t * list Effect :=
  let c1 := withStatus Error c in
  (c1, emit "error" ErrorPayload c1).

(** [message.correlationId && this.pendingRequests.has(message.correlationId)]:
    the empty string is falsy. *)
Definition pendingFor (message : WebSocketMessage) (c : t) : option (string * nat) :=
  match correlationId message with
  | Some cid =>
      if String.eqb cid "" then None
      else match pendingRequests c !! cid with
           | Some timer => Some (cid, timer)
           | None => None
           end
  | None => None
  end.

(** [onmessage]; [raw] is [None] when [JSON.parse] throws.  The stored
    [resolve] clears the request's timer and resolves the promise. *)
Definition onmessage (raw : option WebSocketMessage) (c : t) : t * list Effect :=
  match raw with
  | None => (c, [ConsoleError "Failed to parse WebSocket message"])
  | Some message =>
      match pendingFor message c with
      | Some (cid, timer) =>
          (withRequests (delete cid (pendingRequests c))
                        (delete timer (timers c)) (nextTimer c) c,
           [Resolved cid (payload message)])
      | None =>
          (c, emit (type message) (MessagePayload (payload message)) c)
      end
  end.

Definition send (ty : string) (p : Payload) (now : Z) (c : t) : outcome t :=
  if isOpen c then
    match ws c with
    | Some i =>
        match sockets c !! i with
        | Some s =>
            Returned
              (withSockets (ws c)
                 (<[i := mkSocket (url s) (readyState s)
                           (sent s ++ [mkMessage ty p now None])]> (sockets c)) c)
        | None => Returned c
        end
    | None => Returned c
    end
  else Thrown (Some "WebSocket is not connected").

(** [sendAndWait]; [uuid] is [crypto.randomUUID()].  [this.ws?.send] hands
    the message to the socket, which transmits it when it is open. *)
Definition sendAndWait (ty : string) (p : Payload) (timeout' : Z) (uuid : string)
    (now : Z) (c : t) : t :=
  let timer := nextTimer c in
  let c1 := setTimeout (RequestTimeout uuid timeout') c in
  let c2 := withRequests (<[uuid := timer]> (pendingRequests c1))
                         (timers c1) (nextTimer c1) c1 in
  match ws c2 with
  | Some i =>
      match sockets c2 !! i with
      | Some s =>
          if bool_decide (readyState s = OPEN) then
            withSockets (ws c2)
              (<[i := mkSocket (url s) OPEN
                        (sent s ++ [mkMessage ty p now (Some uuid)])]> (sockets c2)) c2
          else c2
      | None => c2
      end
  | None => c2
  end.

(** A timer fires: its callback runs and the timer is gone. *)
Definition fire (id : nat) (c : t) : option (t * list Effect) :=
  match timers c !! id with
  | None => None
  | Some tm =>
      let c1 := withRequests (pendingRequests c) (delete id (timers c))
                             (nextTimer c) c in
      match tm with
      | ReconnectTimer _ => Some (connect c1, [])
      | RequestTimeout cid _ =>
          Some (withRequests (delete cid (pendingRequests c1)) (timers c1)
                             (nextTimer c1) c1,
                [Rejected cid "Request timeout"])
      end
  end.

(** *** The event loop

    What can happen to a client: calls of its methods by the application,
    and events the platform delivers to the handlers of a socket or of a
    timer.  A socket event is delivered to a socket that [connect] created;
    [close] is delivered at most once per socket, [open] only to a
    connecting socket and [message] only to an open one. *)

Inductive Event : Type :=
| CallConnect
| CallDisconnect
| CallOn (event : string) (handler : nat)
| CallSendAndWait (ty : string) (p : Payload) (timeout' : Z) (uuid : string) (now : Z)
| SocketOpens (i : nat)
| SocketCloses (i : nat)
| SocketErrors (i : nat)
| SocketReceives (i : nat) (raw : option WebSocketMessage)
| TimerFires (id : nat).

Definition setReadyState (i : nat) (r : ReadyState) (c : t) : t :=
  match sockets c !! i with
  | Some s => withSockets (ws c) (<[i := mkSocket (url s) r (sent s)]> (sockets c)) c
  | None => c
  end.

Definition step (ev : Event) (c : t) : option (t * list Effect) :=
  match ev with
  | CallConnect => Some (connect c, [])
  | CallDisconnect => Some (disconnect c, [])
  | CallOn event handler => Some (on event handler c, [])
  | CallSendAndWait ty p timeout' uuid now =>
      (* [crypto.randomUUID()] yields a 36-character string *)
      if String.eqb uuid "" then None
      else Some (sendAndWait ty p timeout' uuid now c, [])
  | SocketOpens i =>
      match sockets c !! i with
      | Some s =>
          if bool_decide (readyState s = CONNECTING)
          then Some (onopen (setReadyState i OPEN c))
          else None
      | None => None
      end
  | SocketCloses i =>
      match sockets c !! i with
      | Some s =>
          if bool_decide (readyState s = CLOSED) then None
          else Some (onclose (setReadyState i CLOSED c))
      | None => None
      end
  | SocketErrors i =>
      match sockets c !! i with
      | Some s =>
          if bool_decide (readyState s = CLOSED) then None
          else Some (onerror c)
      | None => None
      end
  | SocketReceives i raw =>
      match sockets c !! i with
      | Some s =>
          if bool_decide (readyState s = OPEN) then Some (onmessage raw c)
          else None
      | None => None
      end
  | TimerFires id => fire id c
  end.

Fixpoint run (evs : list Event) (c : t) : option (t * list Effect) :=
  match evs with
  | [] => Some (c, [])
  | ev :: evs' =>
      match step ev c with
      | Some (c1, eff1) =>
          match run evs' c1 with
          | Some (c2, eff2) => Some (c2, eff1 ++ eff2)
          | None => None
          end
      | None => None
      end
  end.

(** *** Pending requests are keyed by UUIDs *)

Definition wellKeyed (c : t) : Prop := pendingRequests c !! "" = None.

Lemma pendingRequests_connect c : pendingRequests (connect c) = pendingRequests c.
Proof. unfold connect. by destruct (isOpen c). Qed.

Lemma pendingRequests_disconnect c :
  pendingRequests (disconnect c) = pendingRequests c.
Proof.
  unfold disconnect. destruct (ws c) as [i|]; [|done].
  by destruct (sockets c !! i).
Qed.

Lemma pendingRequests_setReadyState i r c :
  pendingRequests (setReadyState i r c) = pendingRequests c.
Proof. unfold setReadyState. by destruct (sockets c !! i). Qed.

Lemma pendingRequests_onclose c :
  pendingRequests (fst (onclose c)) = pendingRequests c.
Proof.
  unfold onclose, attemptReconnect. simpl.
  by destruct (wsReconnectAttempts c >=? retryAttempts (config c)).
Qed.

Lemma sendAndWait_wellKeyed ty p timeout' uuid now c :
  uuid <> "" -> wellKeyed c -> wellKeyed (sendAndWait ty p timeout' uuid now c).
Proof.
  intros Hne Hc. unfold wellKeyed, sendAndWait. simpl.
  destruct (ws c) as [i|]; simpl.
  - destruct (sockets c !! i) as [s|]; simpl.
    + destruct (bool_decide (readyState s = OPEN)); simpl;
        by rewrite lookup_insert_ne.
    + by rewrite lookup_insert_ne.
  - by rewrite lookup_insert_ne.
Qed.

Lemma onmessage_wellKeyed raw c :
  wellKeyed c -> wellKeyed (fst (onmessage raw c)).
Proof.
  intros Hc. unfold wellKeyed, onmessage.
  destruct raw as [message|]; [|done].
  destruct (pendingFor message c) as [[cid timer]|]; [|done].
  simpl. rewrite lookup_delete. by case_decide.
Qed.

Lemma step_wellKeyed ev c c' eff :
  step ev c = Some (c', eff) -> wellKeyed c -> wellKeyed c'.
Proof.
  unfold wellKeyed. destruct ev; simpl; intros Hstep Hc.
  - injection Hstep as <- _. by rewrite pendingRequests_connect.
  - injection Hstep as <- _. by rewrite pendingRequests_disconnect.
  - by injection Hstep as <- _.
  - destruct (String.eqb uuid "") eqn:Hu; [done|].
    injection Hstep as <- _. apply sendAndWait_wellKeyed; [|done].
    by apply String.eqb_neq.
  - destruct (sockets c !! i) as [s|]; [|done].
    destruct (bool_decide (readyState s = CONNECTING)); [|done].
    injection Hstep as <- _. simpl. by rewrite pendingRequests_setReadyState.
  - destruct (sockets c !! i) as [s|]; [|done].
    destruct (bool_decide (readyState s = CLOSED)); [done|].
    assert (c' = fst (onclose (setReadyState i CLOSED c))) as ->
      by (injection Hstep as ->; reflexivity).
    by rewrite pendingRequests_onclose, pendingRequests_setReadyState.
  - destruct (sockets c !! i) as [s|]; [|done].
    destruct (bool_decide (readyState s = CLOSED)); [done|].
    by injection Hstep as <- _.
  - destruct (sockets c !! i) as [s|]; [|done].
    destruct (bool_decide (readyState s = OPEN)); [|done].
    assert (c' = fst (onmessage raw c)) as ->
      by (injection Hstep as ->; reflexivity).
    by apply onmessage_wellKeyed.
  - unfold fire in Hstep. destruct (timers c !! id) as [[d|cid d]|]; [| |done].
    + injection Hstep as <- _. by rewrite pendingRequests_connect.
    + injection Hstep as <- _. simpl. rewrite lookup_delete. by case_decide.
Qed.

(** Every state the client reaches from its constructor has its pending
    requests keyed by non-empty correlation identifiers. *)
Lemma run_wellKeyed evs :
  forall c c' eff, run evs c = Some (c', eff) -> wellKeyed c -> wellKeyed c'.
Proof.
  induction evs as [|ev evs IH]; intros c c' eff; simpl.
  - by intros [= <- _].
  - destruct (step ev c) as [[c1 eff1]|] eqn:Hstep; [|done].
    destruct (run evs c1) as [[c2 eff2]|] eqn:Hrun; [|done].
    intros [= <- _] Hc. eapply IH; [exact Hrun|]. by eapply step_wellKeyed.
Qed.

(** *** What [onclose] reads

    [onclose] looks at the reconnect counter and the configuration only, and
    [disconnect] changes neither: a [close] event is handled the same way
    whether or not [disconnect] was called. *)
Lemma disconnect_leaves_counter c :
  wsReconnectAttempts (disconnect c) = wsReconnectAttempts c /\
  config (disconnect c) = config c.
Proof.
  unfold disconnect. destruct (ws c) as [i|]; [|done].
  by destruct (sockets c !! i).
Qed.

Lemma onclose_sets_reconnect_timer c :
  wsReconnectAttempts c < retryAttempts (config c) ->
  wsStatus (fst (onclose c)) = Reconnecting /\
  timers (fst (onclose c)) !! nextTimer c
  = Some (ReconnectTimer (retryDelay (config c) * (wsReconnectAttempts c + 1))).
Proof.
  intros Hlt. unfold onclose, attemptReconnect. simpl.
  assert ((wsReconnectAttempts c >=? retryAttempts (config c)) = false) as -> by lia.
  simpl. split; [done|]. apply lookup_insert_eq.
Qed.

Definition isResolved (cid : string) (x : Effect) : Prop :=
  match x with Resolved cid' _ => cid' = cid | _ => False end.

(** *** Correlation of replies *)

(** C6. For a client whose pending requests are keyed by UUIDs, and an
    incoming message: (1) if the message's correlation id is that of a
    pending request, the request is resolved with the message's payload and
    removed, and nothing is delivered to subscribers; (2) no other pending
    request is resolved or removed by the message, in particular none whose
    correlation id the message lacks, whatever the message's type; (3) a
    message whose correlation id is absent or matches no pending request is
    delivered to the subscribers of its type, and the state is unchanged. *)
Theorem reply_resolves_only_its_request (c : t) (message : WebSocketMessage) :
  wellKeyed c ->
  (forall cid timer,
      correlationId message = Some cid -> pendingRequests c !! cid = Some timer ->
      snd (onmessage (Some message) c) = [Resolved cid (payload message)] /\
      pendingRequests (fst (onmessage (Some message) c)) !! cid = None) /\
  (forall cid timer,
      pendingRequests c !! cid = Some timer -> correlationId message <> Some cid ->
      pendingRequests (fst (onmessage (Some message) c)) !! cid = Some timer /\
      Forall (fun x => ~ isResolved cid x) (snd (onmessage (Some message) c))) /\
  (correlationId message = None \/
   (exists cid, correlationId message = Some cid /\ pendingRequests c !! cid = None) ->
   onmessage (Some message) c
   = (c, map (fun h => Delivered h (type message) (MessagePayload (payload message)))
             (default [] (eventHandlers c !! type message)))).
Proof.
  intros Hkeys. unfold onmessage, pendingFor. repeat split.
  - rewrite H. destruct (String.eqb cid "") eqn:Hc.
    + apply String.eqb_eq in Hc as ->. unfold wellKeyed in Hkeys. congruence.
    + by rewrite H0.
  - rewrite H. destruct (String.eqb cid "") eqn:Hc.
    + apply String.eqb_eq in Hc as ->. unfold wellKeyed in Hkeys. congruence.
    + rewrite H0. simpl. apply lookup_delete_eq.
  - destruct (correlationId message) as [cid'|]; [|done].
    destruct (String.eqb cid' ""); [done|].
    destruct (pendingRequests c !! cid') as [timer'|]; [|done].
    simpl. rewrite lookup_delete_ne; [done|]. congruence.
  - destruct (correlationId message) as [cid'|].
    + destruct (String.eqb cid' "").
      * unfold emit. destruct (eventHandlers c !! type message); simpl; [|done].
        apply Forall_forall. intros x Hx. apply list_elem_of_fmap in Hx as (h & -> & _).
        simpl. tauto.
      * destruct (pendingRequests c !! cid') as [timer'|].
        -- simpl. constructor; [|done]. simpl. congruence.
        -- unfold emit. destruct (eventHandlers c !! type message); simpl; [|done].
           apply Forall_forall. intros x Hx.
           apply list_elem_of_fmap in Hx as (h & -> & _). simpl. tauto.
    + unfold emit. destruct (eventHandlers c !! type message); simpl; [|done].
      apply Forall_forall. intros x Hx.
      apply list_elem_of_fmap in Hx as (h & -> & _). simpl. tauto.
  - intros [Hnone|(cid & Hsome & Hnone)].
    + rewrite Hnone. unfold emit. by destruct (eventHandlers c !! type message).
    + rewrite Hsome. destruct (String.eqb cid ""); rewrite ?Hnone;
        unfold emit; by destruct (eventHandlers c !! type message).
Qed.

(** ** Further properties of the transport client *)

(** The reconnect counter stays within the configured number of attempts,
    and every reconnect timer waits [retryDelay] times the number of the
    attempt it belongs to. *)
Definition reconnectBounded (c : t) : Prop :=
  0 <= wsReconnectAttempts c <= Z.max 0 (retryAttempts (config c)) /\
  forall id d, timers c !! id = Some (ReconnectTimer d) ->
    exists n, 1 <= n <= retryAttempts (config c) /\ d = retryDelay (config c) * n.

(** Every pending request has its timeout timer, and timers are numbered
    below the next identifier [setTimeout] hands out. *)
Definition timeoutsArmed (c : t) : Prop :=
  (forall cid tid, pendingRequests c !! cid = Some tid ->
     exists d, timers c !! tid = Some (RequestTimeout cid d)) /\
  (forall tid, is_Some (timers c !! tid) -> (tid < nextTimer c)%nat).

(** What the two invariants read of a client. *)
Definition timing (c : t)
    : ConnectionConfig * Z * gmap string nat * gmap nat Timer * nat :=
  (config c, wsReconnectAttempts c, pendingRequests c, timers c, nextTimer c).

Lemma timing_eq c c' :
  timing c' = timing c ->
  config c' = config c /\ wsReconnectAttempts c' = wsReconnectAttempts c /\
  pendingRequests c' = pendingRequests c /\ timers c' = timers c /\
  nextTimer c' = nextTimer c.
Proof. unfold timing. by intros [= -> -> -> -> ->]. Qed.

Lemma timing_connect c : timing (connect c) = timing c.
Proof. unfold connect. by destruct (isOpen c). Qed.

Lemma timing_disconnect c : timing (disconnect c) = timing c.
Proof.
  unfold disconnect. destruct (ws c) as [i|]; [|done].
  by destruct (sockets c !! i).
Qed.

Lemma timing_setReadyState i r c : timing (setReadyState i r c) = timing c.
Proof. unfold setReadyState. by destruct (sockets c !! i). Qed.

Lemma timing_sendAndWait ty p timeout' uuid now c :
  timing (sendAndWait ty p timeout' uuid now c)
  = (config c, wsReconnectAttempts c, <[uuid := nextTimer c]> (pendingRequests c),
     <[nextTimer c := RequestTimeout uuid timeout']> (timers c), S (nextTimer c)).
Proof.
  unfold sendAndWait. simpl.
  destruct (ws c) as [i|]; simpl; [|done].
  destruct (sockets c !! i) as [s|]; simpl; [|done].
  by destruct (bool_decide (readyState s = OPEN)).
Qed.

Lemma timing_onclose c :
  timing (fst (onclose c))
  = if wsReconnectAttempts c >=? retryAttempts (config c) then timing c
    else (config c, wsReconnectAttempts c + 1, pendingRequests c,
          <[nextTimer c :=
              ReconnectTimer (retryDelay (config c) * (wsReconnectAttempts c + 1))]>
            (timers c),
          S (nextTimer c)).
Proof.
  unfold onclose, attemptReconnect. simpl.
  by destruct (wsReconnectAttempts c >=? retryAttempts (config c)).
Qed.

Lemma timing_onmessage raw c :
  timing (fst (onmessage raw c))
  = match raw with
    | Some message =>
        match pendingFor message c with
        | Some (cid, tid) =>
            (config c, wsReconnectAttempts c, delete cid (pendingRequests c),
             delete tid (timers c), nextTimer c)
        | None => timing c
        end
    | None => timing c
    end.
Proof.
  unfold onmessage. destruct raw as [message|]; [|done].
  by destruct (pendingFor message c) as [[cid tid]|].
Qed.

Lemma pendingFor_Some message c cid tid :
  pendingFor message c = Some (cid, tid) ->
  correlationId message = Some cid /\ pendingRequests c !! cid = Some tid.
Proof.
  unfold pendingFor. destruct (correlationId message) as [cid'|]; [|done].
  destruct (String.eqb cid' ""); [done|].
  destruct (pendingRequests c !! cid') as [tid'|] eqn:Hp; [|done].
  by intros [= <- <-].
Qed.

Lemma timing_reconnectBounded c c' :
  config c' = config c -> wsReconnectAttempts c' = wsReconnectAttempts c ->
  (forall id d, timers c' !! id = Some (ReconnectTimer d) ->
                timers c !! id = Some (ReconnectTimer d)) ->
  reconnectBounded c -> reconnectBounded c'.
Proof.
  intros Hcfg Hatt Htm [Hb Ht]. unfold reconnectBounded.
  rewrite Hcfg, Hatt. split; [done|]. intros id d H. by apply (Ht id), Htm.
Qed.

Lemma step_reconnectBounded ev c c' eff :
  step ev c = Some (c', eff) -> reconnectBounded c ->
  reconnectBounded c' /\ config c' = config c.
Proof.
  destruct ev; simpl; intros Hstep Hc.
  - injection Hstep as <- _.
    destruct (timing_eq _ _ (timing_connect c)) as (H1 & H2 & _ & H4 & _).
    split; [|done]. eapply timing_reconnectBounded; eauto. by rewrite H4.
  - injection Hstep as <- _.
    destruct (timing_eq _ _ (timing_disconnect c)) as (H1 & H2 & _ & H4 & _).
    split; [|done]. eapply timing_reconnectBounded; eauto. by rewrite H4.
  - injection Hstep as <- _. done.
  - destruct (String.eqb uuid ""); [done|]. injection Hstep as <- _.
    pose proof (timing_sendAndWait ty p timeout' uuid now c) as H.
    unfold timing in H. injection H as H1 H2 _ H4 _.
    split; [|done]. eapply timing_reconnectBounded; eauto.
    intros id d. rewrite H4, lookup_insert. by case_decide.
  - destruct (sockets c !! i) as [s|]; [|done].
    destruct (bool_decide (readyState s = CONNECTING)); [|done].
    injection Hstep as <- _. simpl.
    destruct (timing_eq _ _ (timing_setReadyState i OPEN c)) as (H1 & _ & _ & H4 & _).
    destruct Hc as [Hb Ht]. unfold reconnectBounded. simpl.
    rewrite H1, H4. split; [|done]. split; [lia|done].
  - destruct (sockets c !! i) as [s|]; [|done].
    destruct (bool_decide (readyState s = CLOSED)); [done|].
    assert (c' = fst (onclose (setReadyState i CLOSED c))) as ->
      by (injection Hstep as ->; reflexivity).
    pose proof (timing_onclose (setReadyState i CLOSED c)) as H.
    destruct (timing_eq _ _ (timing_setReadyState i CLOSED c))
      as (H1 & H2 & H3 & H4 & H5).
    rewrite (timing_setReadyState i CLOSED c), H1, H2, H3, H4, H5 in H.
    destruct Hc as [Hb Ht].
    destruct (wsReconnectAttempts c >=? retryAttempts (config c)) eqn:Hge.
    + destruct (timing_eq _ _ H) as (G1 & G2 & _ & G4 & _).
      split; [|done]. eapply timing_reconnectBounded; eauto; [by rewrite G4|].
      by split.
    + unfold timing in H. injection H as G1 G2 _ G4 _.
      unfold reconnectBounded. rewrite G1, G2, G4. split; [|done].
      split; [lia|]. intros id d. rewrite lookup_insert. case_decide.
      * intros [= <-]. exists (wsReconnectAttempts c + 1). split; [lia|done].
      * apply Ht.
  - destruct (sockets c !! i) as [s|]; [|done].
    destruct (bool_decide (readyState s = CLOSED)); [done|].
    by injection Hstep as <- _.
  - destruct (sockets c !! i) as [s|]; [|done].
    destruct (bool_decide (readyState s = OPEN)); [|done].
    assert (c' = fst (onmessage raw c)) as ->
      by (injection Hstep as ->; reflexivity).
    pose proof (timing_onmessage raw c) as H.
    destruct raw as [message|].
    2: { destruct (timing_eq _ _ H) as (G1 & G2 & _ & G4 & _).
         split; [|done]. eapply timing_reconnectBounded; eauto; by rewrite G4. }
    remember (fst (onmessage (Some message) c)) as c1 eqn:Hc1.
    destruct (pendingFor message c) as [[cid tid]|].
    2: { destruct (timing_eq _ _ H) as (G1 & G2 & _ & G4 & _).
         split; [|done]. eapply timing_reconnectBounded; eauto; by rewrite G4. }
    unfold timing in H. injection H as G1 G2 _ G4 _. split; [|done].
    eapply timing_reconnectBounded; eauto.
    intros id d. rewrite G4, lookup_delete. by case_decide.
  - unfold fire in Hstep. destruct (timers c !! id) as [[d0|cid d0]|] eqn:Ht0; [| |done].
    + injection Hstep as <- _.
      match goal with |- context [connect ?x] =>
        destruct (timing_eq _ _ (timing_connect x)) as (H1 & H2 & _ & H4 & _) end.
      simpl in *. split; [|done]. eapply timing_reconnectBounded; eauto.
      intros id' d. rewrite H4, lookup_delete. by case_decide.
    + injection Hstep as <- _. simpl. split; [|done].
      eapply (timing_reconnectBounded c); simpl; eauto.
      intros id' d. rewrite lookup_delete. by case_decide.
Qed.

(** Reconnect bound. In every state a client reaches from its constructor
    the reconnect counter is between 0 and [retryAttempts], and every
    pending reconnect timer has the delay [retryDelay * n] of an attempt
    [n] between 1 and [retryAttempts]: the backoff is linear and at most
    [retryAttempts] reconnects are scheduled between two successful opens. *)
Theorem reconnect_attempts_bounded (cfg : ConnectionConfig) (evs : list Event)
    (c : t) (eff : list Effect) :
  run evs (create cfg) = Some (c, eff) ->
  config c = cfg /\
  0 <= wsReconnectAttempts c <= Z.max 0 (retryAttempts cfg) /\
  forall id d, timers c !! id = Some (ReconnectTimer d) ->
    exists n, 1 <= n <= retryAttempts cfg /\ d = retryDelay cfg * n.
Proof.
  assert (forall evs c0 c1 eff1,
             run evs c0 = Some (c1, eff1) -> reconnectBounded c0 ->
             reconnectBounded c1 /\ config c1 = config c0) as Hrun.
  { clear. induction evs as [|ev evs IH]; intros c0 c1 eff1; simpl.
    - by intros [= <- _].
    - destruct (step ev c0) as [[c2 eff2]|] eqn:Hstep; [|done].
      destruct (run evs c2) as [[c3 eff3]|] eqn:Hrun; [|done].
      intros [= <- _] Hc0.
      destruct (step_reconnectBounded _ _ _ _ Hstep Hc0) as [Hc2 Hcfg2].
      destruct (IH _ _ _ Hrun Hc2) as [Hc3 Hcfg3].
      split; [done|congruence]. }
  intros H. destruct (Hrun _ _ _ _ H) as [[Hb Ht] Hcfg].
  - unfold reconnectBounded, create. simpl. split; [lia|]. intros id d.
    by rewrite lookup_empty.
  - simpl in Hcfg. rewrite Hcfg in *. done.
Qed.

Lemma timeoutsArmed_same c c' :
  timing c' = timing c -> timeoutsArmed c -> timeoutsArmed c'.
Proof.
  intros H. destruct (timing_eq _ _ H) as (_ & _ & H3 & H4 & H5).
  unfold timeoutsArmed. by rewrite H3, H4, H5.
Qed.

Lemma timeoutsArmed_setTimeout c c' (tm : Timer) :
  pendingRequests c' = pendingRequests c ->
  timers c' = <[nextTimer c := tm]> (timers c) ->
  nextTimer c' = S (nextTimer c) ->
  timeoutsArmed c -> timeoutsArmed c'.
Proof.
  intros H3 H4 H5 [Hp Ht]. unfold timeoutsArmed. rewrite H3, H4, H5. split.
  - intros cid tid Hcid. destruct (Hp _ _ Hcid) as [d Hd]. exists d.
    rewrite lookup_insert_ne; [done|]. intros <-.
    assert (nextTimer c < nextTimer c)%nat by (apply Ht; eauto). lia.
  - intros tid. rewrite lookup_insert. case_decide; [lia|].
    intros Hsome. apply Ht in Hsome. lia.
Qed.

Lemma timeoutsArmed_settle c c' cid tid d :
  pendingRequests c' = delete cid (pendingRequests c) ->
  timers c' = delete tid (timers c) ->
  nextTimer c' = nextTimer c ->
  timers c !! tid = Some (RequestTimeout cid d) ->
  timeoutsArmed c -> timeoutsArmed c'.
Proof.
  intros H3 H4 H5 Htid [Hp Ht]. unfold timeoutsArmed. rewrite H3, H4, H5. split.
  - intros cid' tid'. rewrite lookup_delete. case_decide; [done|].
    intros Hcid'. destruct (Hp _ _ Hcid') as [d' Hd']. exists d'.
    rewrite lookup_delete_ne; [done|]. intros <-. congruence.
  - intros tid'. rewrite lookup_delete. case_decide; [by intros [? ?]|].
    apply Ht.
Qed.

Lemma step_timeoutsArmed ev c c' eff :
  step ev c = Some (c', eff) -> timeoutsArmed c -> timeoutsArmed c'.
Proof.
  destruct ev; simpl; intros Hstep Hc.
  - injection Hstep as <- _. by apply (timeoutsArmed_same _ _ (timing_connect c)).
  - injection Hstep as <- _. by apply (timeoutsArmed_same _ _ (timing_disconnect c)).
  - by injection Hstep as <- _.
  - destruct (String.eqb uuid ""); [done|]. injection Hstep as <- _.
    pose proof (timing_sendAndWait ty p timeout' uuid now c) as H.
    unfold timing in H. injection H as _ _ H3 H4 H5.
    destruct Hc as [Hp Ht]. unfold timeoutsArmed. rewrite H3, H4, H5. split.
    + intros cid tid. rewrite lookup_insert. case_decide as Hu.
      * intros [= <-]. subst cid. exists timeout'. apply lookup_insert_eq.
      * intros Hcid. destruct (Hp _ _ Hcid) as [d Hd]. exists d.
        rewrite lookup_insert_ne; [done|]. intros <-.
        assert (nextTimer c < nextTimer c)%nat by (apply Ht; eauto). lia.
    + intros tid. rewrite lookup_insert. case_decide; [lia|].
      intros Hsome. apply Ht in Hsome. lia.
  - destruct (sockets c !! i) as [s|]; [|done].
    destruct (bool_decide (readyState s = CONNECTING)); [|done].
    injection Hstep as <- _.
    destruct (timing_eq _ _ (timing_setReadyState i OPEN c))
      as (_ & _ & H3 & H4 & H5).
    unfold timeoutsArmed. simpl. by rewrite H3, H4, H5.
  - destruct (sockets c !! i) as [s|]; [|done].
    destruct (bool_decide (readyState s = CLOSED)); [done|].
    assert (c' = fst (onclose (setReadyState i CLOSED c))) as ->
      by (injection Hstep as ->; reflexivity).
    pose proof (timing_onclose (setReadyState i CLOSED c)) as H.
    destruct (timing_eq _ _ (timing_setReadyState i CLOSED c))
      as (H1 & H2 & H3 & H4 & H5).
    rewrite (timing_setReadyState i CLOSED c), H1, H2, H3, H4, H5 in H.
    destruct (wsReconnectAttempts c >=? retryAttempts (config c)).
    + by apply (timeoutsArmed_same c).
    + unfold timing in H. injection H as _ _ G3 G4 G5.
      by eapply timeoutsArmed_setTimeout.
  - destruct (sockets c !! i) as [s|]; [|done].
    destruct (bool_decide (readyState s = CLOSED)); [done|].
    by injection Hstep as <- _.
  - destruct (sockets c !! i) as [s|]; [|done].
    destruct (bool_decide (readyState s = OPEN)); [|done].
    assert (c' = fst (onmessage raw c)) as ->
      by (injection Hstep as ->; reflexivity).
    pose proof (timing_onmessage raw c) as H.
    destruct raw as [message|]; [|by apply (timeoutsArmed_same c)].
    remember (fst (onmessage (Some message) c)) as c1 eqn:Hc1.
    destruct (pendingFor message c) as [[cid tid]|] eqn:Hfor;
      [|by apply (timeoutsArmed_same c)].
    apply pendingFor_Some in Hfor as [_ Hcid].
    destruct (proj1 Hc _ _ Hcid) as [d Hd].
    unfold timing in H. injection H as _ _ G3 G4 G5.
    by eapply timeoutsArmed_settle.
  - unfold fire in Hstep.
    destruct (timers c !! id) as [[d0|cid d0]|] eqn:Ht0; [| |done].
    + injection Hstep as <- _.
      match goal with |- timeoutsArmed (connect ?x) =>
        apply (timeoutsArmed_same _ _ (timing_connect x)) end.
      destruct Hc as [Hp Ht]. unfold timeoutsArmed. simpl. split.
      * intros cid tid Hcid. destruct (Hp _ _ Hcid) as [d Hd]. exists d.
        rewrite lookup_delete_ne; [done|]. intros <-. congruence.
      * intros tid. rewrite lookup_delete. case_decide; [by intros [? ?]|].
        apply Ht.
    + injection Hstep as <- _. by eapply (timeoutsArmed_settle c); simpl; eauto.
Qed.

Lemma run_timeoutsArmed evs :
  forall c c' eff, run evs c = Some (c', eff) -> timeoutsArmed c -> timeoutsArmed c'.
Proof.
  induction evs as [|ev evs IH]; intros c c' eff; simpl.
  - by intros [= <- _].
  - destruct (step ev c) as [[c1 eff1]|] eqn:Hstep; [|done].
    destruct (run evs c1) as [[c2 eff2]|] eqn:Hrun; [|done].
    intros [= <- _] Hc. eapply IH; [exact Hrun|]. by eapply step_timeoutsArmed.
Qed.


(** What a [close] event does, by the reconnect counter: below
    [retryAttempts] it sets exactly one timer, for [connect()], with delay
    [retryDelay * (attempts + 1)], counts the attempt and leaves the status
    [Reconnecting]; at [retryAttempts] or above it sets no timer, leaves the
    status [Disconnected] and delivers [reconnect_failed] to each of its
    subscribers once, after the ['connection'] event. *)
Theorem close_event_reconnects_or_gives_up (c : t) :
  let c' := fst (onclose c) in
  if wsReconnectAttempts c <? retryAttempts (config c)
  then
    wsStatus c' = Reconnecting /\
    wsReconnectAttempts c' = wsReconnectAttempts c + 1 /\
    timers c'
    = <[nextTimer c :=
          ReconnectTimer (retryDelay (config c) * (wsReconnectAttempts c + 1))]>
        (timers c) /\
    snd (onclose c)
    = map (fun h => Delivered h "connection" (StatusPayload Disconnected))
          (default [] (eventHandlers c !! "connection"))
  else
    wsStatus c' = Disconnected /\
    wsReconnectAttempts c' = wsReconnectAttempts c /\
    timers c' = timers c /\
    snd (onclose c)
    = map (fun h => Delivered h "connection" (StatusPayload Disconnected))
          (default [] (eventHandlers c !! "connection"))
      ++ map (fun h => Delivered h "reconnect_failed" EmptyPayload)
             (default [] (eventHandlers c !! "reconnect_failed")).
Proof.
  unfold onclose, attemptReconnect, emit. simpl.
  destruct (wsReconnectAttempts c <? retryAttempts (config c)) eqn:Hlt.
  - assert ((wsReconnectAttempts c >=? retryAttempts (config c)) = false) as -> by lia.
    simpl. repeat split; try done.
    rewrite app_nil_r. by destruct (eventHandlers c !! "connection").
  - assert ((wsReconnectAttempts c >=? retryAttempts (config c)) = true) as -> by lia.
    simpl. repeat split; try done.
    by destruct (eventHandlers c !! "connection"),
                (eventHandlers c !! "reconnect_failed").
Qed.

Definition deliveredTo (h : nat) (x : Effect) : bool :=
  match x with
  | Delivered h' _ _ => Nat.eqb h' h
  | _ => false
  end.

(** Subscriptions.  [on] adds a handler at most once per event: a handler
    subscribed again is not delivered to twice, a new one is delivered to
    last.  The unsubscribe function removes the deliveries to that handler
    and no other, keeping the order.  Neither touches another event. *)
Theorem subscriptions (c : t) (event : string) (h : nat) (p : EventPayload) :
  emit event p (on event h c)
  = (if bool_decide (h ∈ default [] (eventHandlers c !! event))
     then emit event p c
     else emit event p c ++ [Delivered h event p]) /\
  emit event p (unsubscribe event h c)
  = List.filter (fun x => negb (deliveredTo h x)) (emit event p c) /\
  (forall other q, other <> event ->
     emit other q (on event h c) = emit other q c /\
     emit other q (unsubscribe event h c) = emit other q c).
Proof.
  unfold emit, on, unsubscribe. repeat split.
  - simpl. rewrite lookup_insert_eq.
    destruct (eventHandlers c !! event) as [hs|]; simpl.
    + case_bool_decide; [done|]. by rewrite map_app.
    + done.
  - destruct (eventHandlers c !! event) as [hs|] eqn:Hhs; simpl; [|by rewrite Hhs].
    rewrite lookup_insert_eq. clear Hhs.
    induction hs as [|h0 hs IH]; simpl; [done|].
    destruct (negb (h0 =? h)%nat); simpl; by rewrite IH.
  - simpl. by rewrite lookup_insert_ne.
  - destruct (eventHandlers c !! event) as [hs|]; simpl; [|done].
    by rewrite lookup_insert_ne.
Qed.

(** [send] needs an open socket: on a client that was never connected, and
    after [disconnect()], it throws "WebSocket is not connected"; and when it
    returns, the current socket was open and nothing changed but the
    messages handed to a socket. *)
Theorem send_needs_open_socket (ty : string) (p : Payload) (now : Z) (c : t)
    (cfg : ConnectionConfig) :
  send ty p now (create cfg) = Thrown (Some "WebSocket is not connected") /\
  send ty p now (disconnect c) = Thrown (Some "WebSocket is not connected") /\
  match send ty p now c with
  | Returned c' =>
      isOpen c = true /\ timing c' = timing c /\ wsStatus c' = wsStatus c /\
      map readyState (sockets c') = map readyState (sockets c)
  | Thrown e => isOpen c = false /\ e = Some "WebSocket is not connected"
  end.
Proof.
  repeat split.
  - unfold send, disconnect, isOpen.
    destruct (ws c) as [i|] eqn:Hws; simpl; [|by rewrite Hws].
    by destruct (sockets c !! i).
  - unfold send. destruct (isOpen c) eqn:Hopen; [|done].
    unfold isOpen in Hopen.
    destruct (ws c) as [i|]; [|done].
    destruct (sockets c !! i) as [s|] eqn:Hs; [|done].
    simpl. repeat split.
    rewrite list_fmap_insert. simpl. apply list_insert_id.
    by rewrite list_lookup_fmap, Hs.
Qed.

End Client.

Arguments mkMessage {Payload}.
Arguments mkSocket {Payload}.
Arguments create {Payload}.
Arguments run {Payload}.
Arguments step {Payload}.
Arguments onmessage {Payload}.
Arguments wellKeyed {Payload}.
Arguments wsStatus {Payload}.
Arguments ws {Payload}.
Arguments sockets {Payload}.
Arguments timers {Payload}.
Arguments pendingRequests {Payload}.
Arguments eventHandlers {Payload}.
Arguments readyState {Payload}.
Arguments wsReconnectAttempts {Payload}.
Arguments CallConnect {Payload}.
Arguments CallDisconnect {Payload}.
Arguments CallOn {Payload}.
Arguments CallSendAndWait {Payload}.
Arguments SocketOpens {Payload}.
Arguments SocketCloses {Payload}.
Arguments SocketErrors {Payload}.
Arguments SocketReceives {Payload}.
Arguments TimerFires {Payload}.
Arguments Delivered {Payload}.
Arguments Resolved {Payload}.
Arguments MessagePayload {Payload}.
Arguments isResolved {Payload}.
Arguments type {Payload}.
Arguments payload {Payload}.
Arguments correlationId {Payload}.

(** *** Concrete runs *)

(** A connected client with one subscriber of ['ping'] (handler 7) and one
    [sendAndWait('ping', ...)] in flight. *)
Definition waitingForPong : option (t string * list (Effect string)) :=
  run [CallConnect; SocketOpens 0; CallOn "ping" 7;
       CallSendAndWait "ping" "{}" 30000 "3f0c9d3e-7a55-4c1b-9a0e-2f6d1b7c8e90" 100]
      (create defaultConfig).

Definition waitingClient : t string :=
  match waitingForPong with
  | Some (c, _) => c
  | None => create defaultConfig
  end.

Definition pong : WebSocketMessage string :=
  mkMessage "ping" "pong" 101 (Some "3f0c9d3e-7a55-4c1b-9a0e-2f6d1b7c8e90").

Definition unrelatedPing : WebSocketMessage string :=
  mkMessage "ping" "server ping" 102 None.

Lemma waitingClient_wellKeyed : wellKeyed waitingClient.
Proof.
  apply (run_wellKeyed string
           [CallConnect; SocketOpens 0; CallOn "ping" 7;
            CallSendAndWait "ping" "{}" 30000 "3f0c9d3e-7a55-4c1b-9a0e-2f6d1b7c8e90" 100]
           (create defaultConfig) waitingClient []).
  - by vm_compute.
  - reflexivity.
Qed.

Example pong_resolves :
  snd (onmessage (Some pong) waitingClient)
  = [Resolved "3f0c9d3e-7a55-4c1b-9a0e-2f6d1b7c8e90" "pong"].
Proof. by vm_compute. Qed.

Example unrelatedPing_is_dispatched :
  snd (onmessage (Some unrelatedPing) waitingClient)
  = [Delivered 7 "ping" (MessagePayload "server ping")] /\
  pendingRequests (fst (onmessage (Some unrelatedPing) waitingClient))
    !! "3f0c9d3e-7a55-4c1b-9a0e-2f6d1b7c8e90" = Some 0%nat.
Proof. by vm_compute. Qed.

Lemma reply_resolves_only_its_request_witness :
  (forall cid timer,
      correlationId pong = Some cid ->
      pendingRequests waitingClient !! cid = Some timer ->
      snd (onmessage (Some pong) waitingClient) = [Resolved cid (payload pong)] /\
      pendingRequests (fst (onmessage (Some pong) waitingClient)) !! cid = None) /\
  (forall cid timer,
      pendingRequests waitingClient !! cid = Some timer ->
      correlationId pong <> Some cid ->
      pendingRequests (fst (onmessage (Some pong) waitingClient)) !! cid = Some timer /\
      Forall (fun x => ~ isResolved cid x) (snd (onmessage (Some pong) waitingClient))) /\
  (correlationId pong = None \/
   (exists cid, correlationId pong = Some cid /\
                pendingRequests waitingClient !! cid = None) ->
   onmessage (Some pong) waitingClient
   = (waitingClient,
      map (fun h => Delivered h (type pong) (MessagePayload (payload pong)))
          (default [] (eventHandlers waitingClient !! type pong)))).
Proof.
  apply (reply_resolves_only_its_request string waitingClient pong).
  vm_compute. reflexivity.
Defined.

(** The application connects, the socket opens, the application calls
    [disconnect()]; then the platform delivers the [close] event of the
    socket that [disconnect()] closed, and the timer set by the handler
    fires. *)
Definition afterDisconnect : option (t string * list (Effect string)) :=
  run [CallConnect; SocketOpens 0; CallDisconnect] (create defaultConfig).

Definition afterClose : option (t string * list (Effect string)) :=
  run [CallConnect; SocketOpens 0; CallDisconnect; SocketCloses 0]
      (create defaultConfig).

Definition afterTimer : option (t string * list (Effect string)) :=
  run [CallConnect; SocketOpens 0; CallDisconnect; SocketCloses 0; TimerFires 0]
      (create defaultConfig).

(** What is observed of a client: its status, [this.ws], the ready states
    of the sockets it created, the reconnect counter and the timers set. *)
Definition observe (r : option (t string * list (Effect string)))
    : option (WebSocketStatus * option nat * list ReadyState * Z * list (nat * Timer)) :=
  match r with
  | Some (c, _) =>
      Some (wsStatus c, ws c, map readyState (sockets c),
            wsReconnectAttempts c, map_to_list (timers c))
  | None => None
  end.

(** C2. After [connect()], the socket's [open] and an explicit
    [disconnect()], the client is disconnected with no timer set.  The
    [close] event of the socket then runs [onclose], which calls
    [attemptReconnect]: a reconnect timer is set, and when it fires
    [connect()] creates a second socket. *)
Theorem disconnect_is_followed_by_reconnect :
  observe afterDisconnect = Some (Disconnected, None, [CLOSING], 0, []) /\
  observe afterClose
  = Some (Reconnecting, None, [CLOSED], 1, [(0%nat, ReconnectTimer 1000)]) /\
  observe afterTimer = Some (Connecting, Some 1%nat, [CLOSED; CONNECTING], 1, []).
Proof. by vm_compute. Qed.

(** *** Concrete runs for the further properties *)

Arguments fire {Payload}.
Arguments config {Payload}.
Arguments Rejected {Payload}.

(** The client after [connect()], [open], [disconnect()] and the [close]
    event: one reconnect timer is pending. *)
Definition closedClient : t string :=
  match afterClose with
  | Some (c, _) => c
  | None => create defaultConfig
  end.

Lemma reconnect_attempts_bounded_witness :
  config closedClient = defaultConfig /\
  0 <= wsReconnectAttempts closedClient <= Z.max 0 (retryAttempts defaultConfig) /\
  forall id d, timers closedClient !! id = Some (ReconnectTimer d) ->
    exists n, 1 <= n <= retryAttempts defaultConfig /\ d = retryDelay defaultConfig * n.
Proof.
  apply (reconnect_attempts_bounded string defaultConfig
           [CallConnect; SocketOpens 0; CallDisconnect; SocketCloses 0]
           closedClient []).
  vm_compute. reflexivity.
Defined.


End JarvisApiClient.
